(** * Vulnera security assistant: normalisation, decisions and scan history

    A shallow embedding of [security-assistant.service.ts] and
    [security-assistant.data.ts].  JavaScript values are modelled at the level
    of the TypeScript interfaces the service declares: optional fields are
    [option]s, numbers that hold counts and scores are integers ([Z]),
    strings are [string]s of 8-bit characters (the ASCII fragment of the
    UTF-16 strings of the program), the process-wide [Map] of saved scans is
    a [gmap] that is passed in and out of the operation that mutates it, and
    an operation that may [throw] returns a [Result]. *)

From Stdlib Require Import ZArith Ascii String DecimalString DecimalZ Sorted.
From stdpp Require Import list gmap strings.

Local Open Scope string_scope.
Local Open Scope list_scope.
Local Open Scope Z_scope.

(** ** JavaScript primitives used by the service *)

(** The outcome of a call that either returns or throws [new Error(msg)]. *)
Inductive Result (A : Type) : Type :=
  | Ok (value : A)
  | Throw (message : string).
Arguments Ok {A} value.
Arguments Throw {A} message.

Global Instance Result_ret : MRet Result := fun _ a => Ok a.

Global Instance Result_bind : MBind Result := fun _ _ k r =>
  match r with
  | Ok a => k a
  | Throw m => Throw m
  end.

(** [String(n)] for an integer [n]. *)
Definition showZ (z : Z) : string := NilZero.string_of_int (Z.to_int z).

(** The double-quote character, for messages that quote a tool name. *)
Definition dquote : string := String (ascii_of_nat 34) EmptyString.

(** A string is truthy when it is not empty. *)
Definition truthy (s : string) : bool := negb (String.eqb s "").

(** [o ?? d] *)
Definition nullish {A : Type} (o : option A) (d : A) : A :=
  match o with
  | Some a => a
  | None => d
  end.

Definition is_upper (c : ascii) : bool :=
  (65 <=? nat_of_ascii c)%nat && (nat_of_ascii c <=? 90)%nat.

Definition lower_char (c : ascii) : ascii :=
  if is_upper c then ascii_of_nat (nat_of_ascii c + 32) else c.

(** [s.toLowerCase()] *)
Fixpoint toLowerCase (s : string) : string :=
  match s with
  | EmptyString => EmptyString
  | String c s' => String (lower_char c) (toLowerCase s')
  end.

(** [s.slice(0, n)] *)
Fixpoint slice0 (n : nat) (s : string) : string :=
  match n, s with
  | O, _ => EmptyString
  | S n', String c s' => String c (slice0 n' s')
  | S _, EmptyString => EmptyString
  end.

(** ** security-assistant.data.ts *)

Inductive SeverityLevel : Set := critical | high | moderate | low | info.

Global Instance SeverityLevel_eq_dec : EqDecision SeverityLevel.
Proof. solve_decision. Defined.

Definition SEVERITY_ORDER : list SeverityLevel := [critical; high; moderate; low; info].

Definition SEVERITY_SCORE (s : SeverityLevel) : Z :=
  match s with
  | critical => 100
  | high => 80
  | moderate => 50
  | low => 20
  | info => 5
  end.

(** The string each member of the union type [SeverityLevel] is at run time. *)
Definition severityName (s : SeverityLevel) : string :=
  match s with
  | critical => "critical"
  | high => "high"
  | moderate => "moderate"
  | low => "low"
  | info => "info"
  end.

(** The member of [SEVERITY_ORDER] a raw string is, if any:
    [SEVERITY_ORDER.includes(raw)] is [is_Some (severityOfString raw)]. *)
Definition severityOfString (raw : string) : option SeverityLevel :=
  if String.eqb raw "critical" then Some critical
  else if String.eqb raw "high" then Some high
  else if String.eqb raw "moderate" then Some moderate
  else if String.eqb raw "low" then Some low
  else if String.eqb raw "info" then Some info
  else None.

(** [fixAvailable?: string | boolean] *)
Inductive FixAvailable : Set :=
  | FixAbsent
  | FixFlag (flag : bool)
  | FixVersion (version : string).

(** Truthiness of a [fixAvailable] value, as tested by [!v.fixAvailable]. *)
Definition hasFix (f : FixAvailable) : bool :=
  match f with
  | FixAbsent => false
  | FixFlag b => b
  | FixVersion s => truthy s
  end.

Module Vulnerability.
Record t : Set := mk {
  name : string;
  severity : SeverityLevel;
  title : option string;
  id : option string;
  range : option string;
  fixAvailable : FixAvailable;
  via : option (list string);
  isDirect : option bool;
  description : option string;
}.
End Vulnerability.
Abbreviation Vulnerability := Vulnerability.t.

(** [Record<SeverityLevel, number>] *)
Module Counts.
Record t : Set := mk {
  critical : Z;
  high : Z;
  moderate : Z;
  low : Z;
  info : Z;
}.
Definition zero : t := mk 0 0 0 0 0.
End Counts.
Abbreviation Counts := Counts.t.

(** [counts[s]] *)
Definition getCount (c : Counts) (s : SeverityLevel) : Z :=
  match s with
  | critical => Counts.critical c
  | high => Counts.high c
  | moderate => Counts.moderate c
  | low => Counts.low c
  | info => Counts.info c
  end.

(** [counts[s] = n] *)
Definition setCount (c : Counts) (s : SeverityLevel) (n : Z) : Counts :=
  match s with
  | critical => Counts.mk n (Counts.high c) (Counts.moderate c) (Counts.low c) (Counts.info c)
  | high => Counts.mk (Counts.critical c) n (Counts.moderate c) (Counts.low c) (Counts.info c)
  | moderate => Counts.mk (Counts.critical c) (Counts.high c) n (Counts.low c) (Counts.info c)
  | low => Counts.mk (Counts.critical c) (Counts.high c) (Counts.moderate c) n (Counts.info c)
  | info => Counts.mk (Counts.critical c) (Counts.high c) (Counts.moderate c) (Counts.low c) n
  end.

Module AuditSummary.
Record t : Set := mk {
  counts : Counts;
  totalVulnerabilities : Z;
  hasCriticalOrHigh : bool;
  vulnerabilities : list Vulnerability;
}.
End AuditSummary.
Abbreviation AuditSummary := AuditSummary.t.

Module ShipReadiness.
Record t : Set := mk {
  safeToShip : bool;
  reason : string;
  critical : Z;
  high : Z;
  moderate : Z;
  low : Z;
  recommendation : option string;
}.
End ShipReadiness.
Abbreviation ShipReadiness := ShipReadiness.t.

Module UpgradeSuggestion.
Record t : Set := mk {
  package : string;
  current : string;
  target : string;
  severity : SeverityLevel;
  action : string;
  isSemverCompatible : option bool;
}.
End UpgradeSuggestion.
Abbreviation UpgradeSuggestion := UpgradeSuggestion.t.

Inductive ProjectType : Set := node | python.

Global Instance ProjectType_eq_dec : EqDecision ProjectType.
Proof. solve_decision. Defined.

Module SavedScan.
Record t : Set := mk {
  id : string;
  repoId : string;
  ref : option string;
  subpath : option string;
  scannedAt : string;
  summary : AuditSummary;
  projectType : option ProjectType;
}.
End SavedScan.
Abbreviation SavedScan := SavedScan.t.

Module Snapshot.
Record t : Set := mk {
  scannedAt : string;
  counts : Counts;
  totalVulnerabilities : Z;
}.
End Snapshot.
Abbreviation Snapshot := Snapshot.t.

Module CompareScansResult.
Record t : Set := mk {
  repoId : string;
  baseline : Snapshot;
  current : Snapshot;
  fixed : list Vulnerability;
  introduced : list Vulnerability;
  summary : string;
  isFirstScan : option bool;
}.
End CompareScansResult.
Abbreviation CompareScansResult := CompareScansResult.t.

(** ** Raw scanner output: the interfaces of security-assistant.service.ts *)

(** One element of a [via] array: a package name or an advisory object. *)
Inductive ViaEntry : Set :=
  | ViaText (text : string)
  | ViaAdvisory (title : option string).

(** [via?: string[] | string | Array<{ title?: string } | string>] *)
Inductive RawVia : Set :=
  | ViaList (entries : list ViaEntry)
  | ViaSingle (text : string).

(** [fixAvailable?: { name?: string; version?: string } | boolean]; the
    service also tests for a string, so that shape is kept. *)
Inductive RawFix : Set :=
  | RawFixObject (name version : option string)
  | RawFixBoolean (flag : bool)
  | RawFixString (text : string).

Module NpmAuditVuln.
Record t : Set := mk {
  severity : option string;
  via : option RawVia;
  isDirect : option bool;
  effects : option (list string);
  range : option string;
  fixAvailable : option RawFix;
}.
End NpmAuditVuln.
Abbreviation NpmAuditVuln := NpmAuditVuln.t.

(** [metadata.vulnerabilities]: the counts npm aggregated itself. *)
Module NpmMetaCounts.
Record t : Set := mk {
  info : option Z;
  low : option Z;
  moderate : option Z;
  high : option Z;
  critical : option Z;
}.
Definition empty : t := mk None None None None None.
End NpmMetaCounts.
Abbreviation NpmMetaCounts := NpmMetaCounts.t.

(** [meta[s]] *)
Definition metaCount (m : NpmMetaCounts) (s : SeverityLevel) : option Z :=
  match s with
  | critical => NpmMetaCounts.critical m
  | high => NpmMetaCounts.high m
  | moderate => NpmMetaCounts.moderate m
  | low => NpmMetaCounts.low m
  | info => NpmMetaCounts.info m
  end.

Module NpmMetadata.
Record t : Set := mk { vulnerabilities : option NpmMetaCounts }.
End NpmMetadata.
Abbreviation NpmMetadata := NpmMetadata.t.

(** [vulnerabilities] is held as [Object.entries] enumerates it. *)
Module NpmAuditJson.
Record t : Set := mk {
  auditReportVersion : option Z;
  vulnerabilities : option (list (string * NpmAuditVuln));
  metadata : option NpmMetadata;
}.
End NpmAuditJson.
Abbreviation NpmAuditJson := NpmAuditJson.t.

Module PipAuditVuln.
Record t : Set := mk {
  id : option string;
  fix_versions : option (list string);
  description : option string;
  known_severity : option string;
}.
End PipAuditVuln.
Abbreviation PipAuditVuln := PipAuditVuln.t.

Module PipAuditDep.
Record t : Set := mk {
  name : string;
  version : string;
  vulns : option (list PipAuditVuln);
}.
End PipAuditDep.
Abbreviation PipAuditDep := PipAuditDep.t.

(** [PipAuditDep[] | { version?; dependencies?; vulnerabilities? }] *)
Inductive PipAuditJson : Set :=
  | PipArray (deps : list PipAuditDep)
  | PipObject (version : option Z) (dependencies vulnerabilities : option (list PipAuditDep)).

(** ** normalizePipAuditToSummary *)

(** What reading a property of the object literal [severityMap] gives: one of
    its six own entries, or a member inherited from [Object.prototype].  The
    key has been lower-cased, so of the inherited members only the two whose
    names have no capital can be reached: [constructor] and [__proto__].
    Both are objects, hence truthy, and neither is a severity string. *)
Inductive SeverityMapValue : Set :=
  | OwnLevel (level : SeverityLevel)
  | Inherited.

(** [severityMap[key]]; [None] is [undefined]. *)
Definition severityMap (key : string) : option SeverityMapValue :=
  if String.eqb key "critical" then Some (OwnLevel critical)
  else if String.eqb key "high" then Some (OwnLevel high)
  else if String.eqb key "medium" then Some (OwnLevel moderate)
  else if String.eqb key "moderate" then Some (OwnLevel moderate)
  else if String.eqb key "low" then Some (OwnLevel low)
  else if String.eqb key "info" then Some (OwnLevel info)
  else if String.eqb key "constructor" then Some Inherited
  else if String.eqb key "__proto__" then Some Inherited
  else None.

(** [(sevRaw && severityMap[sevRaw]) ? severityMap[sevRaw] : 'high'] *)
Definition pipSeverity (known_severity : option string) : SeverityMapValue :=
  match toLowerCase <$> known_severity with
  | Some sevRaw =>
      if truthy sevRaw then nullish (severityMap sevRaw) (OwnLevel high)
      else OwnLevel high
  | None => OwnLevel high
  end.

(** [SEVERITY_ORDER.includes(sev)] *)
Definition inSeverityOrder (sev : SeverityMapValue) : option SeverityLevel :=
  match sev with
  | OwnLevel s => if bool_decide (s ∈ SEVERITY_ORDER) then Some s else None
  | Inherited => None
  end.

(** [counts[sev]++] *)
Definition increment (c : Counts) (s : SeverityLevel) : Counts :=
  setCount c s (getCount c s + 1).

Definition pipVulnerability (dep : PipAuditDep) (v : PipAuditVuln) (sev : SeverityLevel)
  : Vulnerability :=
  let fixVer := match PipAuditVuln.fix_versions v with
                | Some versions => head versions
                | None => None
                end in
  Vulnerability.mk
    (PipAuditDep.name dep)
    sev
    (match PipAuditVuln.id v with
     | Some i => Some i
     | None => slice0 80 <$> PipAuditVuln.description v
     end)
    (PipAuditVuln.id v)
    (Some (PipAuditDep.version dep))
    (match fixVer with Some ver => FixVersion ver | None => FixFlag false end)
    None
    (Some true)
    (PipAuditVuln.description v).

(** The loop state: the counters and the list pushed to. *)
Definition Accum : Set := Counts * list Vulnerability.

(** One iteration of the inner loop [for (const v of vulns)]. *)
Definition pipStep (dep : PipAuditDep) (acc : Accum) (v : PipAuditVuln) : Accum :=
  match inSeverityOrder (pipSeverity (PipAuditVuln.known_severity v)) with
  | None => acc
  | Some sev => (increment acc.1 sev, acc.2 ++ [pipVulnerability dep v sev])
  end.

(** One iteration of the outer loop [for (const dep of deps)]. *)
Definition pipDepStep (acc : Accum) (dep : PipAuditDep) : Accum :=
  fold_left (pipStep dep) (nullish (PipAuditDep.vulns dep) []) acc.

(** [Array.isArray(audit) ? audit : (audit.dependencies ?? audit.vulnerabilities ?? [])] *)
Definition pipDeps (audit : PipAuditJson) : list PipAuditDep :=
  match audit with
  | PipArray deps => deps
  | PipObject _ dependencies vulnerabilities =>
      nullish dependencies (nullish vulnerabilities [])
  end.

Definition summaryOf (acc : Accum) : AuditSummary :=
  AuditSummary.mk
    acc.1
    (Z.of_nat (length acc.2))
    ((0 <? Counts.critical acc.1) || (0 <? Counts.high acc.1))
    acc.2.

Definition normalizePipAuditToSummary (audit : PipAuditJson) : AuditSummary :=
  summaryOf (fold_left pipDepStep (pipDeps audit) (Counts.zero, [])).

(** ** The npm adapter inside getAuditSummary *)

(** [meta[s] ?? 0] for each key of [counts]. *)
Definition countsFromMeta (meta : NpmMetaCounts) : Counts :=
  fold_left (fun c s => setCount c s (nullish (metaCount meta s) 0))
    SEVERITY_ORDER Counts.zero.

(** [Array.isArray(v.via) ? v.via : v.via ? [v.via] : []] *)
Definition viaArray (rawVia : option RawVia) : list ViaEntry :=
  match rawVia with
  | Some (ViaList entries) => entries
  | Some (ViaSingle text) => if truthy text then [ViaText text] else []
  | None => []
  end.

(** [typeof via[0] === 'string' ? via[0] : via[0]?.title] *)
Definition firstViaOf (entries : list ViaEntry) : option string :=
  match entries with
  | ViaText text :: _ => Some text
  | ViaAdvisory title :: _ => title
  | [] => None
  end.

Definition npmFixVersion (raw : option RawFix) : FixAvailable :=
  match raw with
  | Some (RawFixObject _ (Some version)) =>
      if truthy version then FixVersion version else FixAbsent
  | Some (RawFixObject _ None) => FixAbsent
  | Some (RawFixBoolean flag) => FixFlag flag
  | Some (RawFixString text) => FixVersion text
  | None => FixAbsent
  end.

(** [v.via.map(x => typeof x === 'string' ? x : x?.title ?? '')] for an array. *)
Definition viaStringsOf (rawVia : option RawVia) : option (list string) :=
  match rawVia with
  | Some (ViaList entries) =>
      Some (map (fun x => match x with
                          | ViaText text => text
                          | ViaAdvisory title => nullish title ""
                          end) entries)
  | _ => None
  end.

Definition npmVulnerability (name : string) (v : NpmAuditVuln) (sev : SeverityLevel)
  : Vulnerability :=
  let firstVia := firstViaOf (viaArray (NpmAuditVuln.via v)) in
  Vulnerability.mk
    name
    sev
    firstVia
    None
    (NpmAuditVuln.range v)
    (npmFixVersion (NpmAuditVuln.fixAvailable v))
    (match viaStringsOf (NpmAuditVuln.via v) with
     | Some (x :: l) => Some (x :: l)
     | _ => None
     end)
    (NpmAuditVuln.isDirect v)
    (match firstVia with
     | Some text => if truthy text then Some (name +:+ ": " +:+ text) else None
     | None => None
     end).

(** One iteration of [for (const [name, v] of Object.entries(...))]. *)
Definition npmStep (vulnerabilities : list Vulnerability) (entry : string * NpmAuditVuln)
  : list Vulnerability :=
  let severity := nullish (NpmAuditVuln.severity entry.2) "moderate" in
  match severityOfString severity with
  | None => vulnerabilities
  | Some sev => vulnerabilities ++ [npmVulnerability entry.1 entry.2 sev]
  end.

Definition emptySummary : AuditSummary :=
  AuditSummary.mk Counts.zero 0 false [].

(** [audit.metadata?.vulnerabilities ?? {}] *)
Definition auditMeta (audit : NpmAuditJson) : NpmMetaCounts :=
  match NpmAuditJson.metadata audit with
  | Some metadata => nullish (NpmMetadata.vulnerabilities metadata) NpmMetaCounts.empty
  | None => NpmMetaCounts.empty
  end.

(** The part of [getAuditSummary] that follows [runAudit]. *)
Definition normalizeNpmAudit (audit : option NpmAuditJson) : AuditSummary :=
  match audit with
  | None => emptySummary
  | Some report =>
      match NpmAuditJson.vulnerabilities report with
      | None => emptySummary
      | Some entries =>
          summaryOf (countsFromMeta (auditMeta report), fold_left npmStep entries [])
      end
  end.

(** ** The project directory and the external scanners *)

(** What [execSync] did: it returned the standard output of the command, or
    it threw an error that may carry the standard output captured so far. *)
Inductive ExecOutcome : Set :=
  | Returned (stdout : string)
  | Failed (stdout : option string).

(** Everything [getAuditSummary] reads from outside for one project root:
    which manifests [existsSync] finds there, what each scanner command does
    when run there, and [JSON.parse] at the two types it is cast to ([None]
    when it throws or yields [null]).  The service casts the parsed value
    without checking it: a value that parses is taken here to have the shape
    of the interface, and what the engine does with a value of another shape
    (a [TypeError] on an entry that is [null], say) is outside this model. *)
Module World.
Record t : Type := mk {
  package_json : bool;
  requirements_txt : bool;
  pyproject_toml : bool;
  Pipfile : bool;
  npm_audit : ExecOutcome;
  pip_audit : ExecOutcome;
  python_m_pip_audit : ExecOutcome;
  parseNpm : string -> option NpmAuditJson;
  parsePip : string -> option PipAuditJson;
}.
End World.
Abbreviation World := World.t.

Definition detectProjectType (w : World) : option ProjectType :=
  if World.package_json w then Some node
  else if World.requirements_txt w || World.pyproject_toml w || World.Pipfile w
       then Some python
  else None.

(** The local [run] of [runPipAudit]: the output, or [err.stdout ?? null]. *)
Definition pipRun (outcome : ExecOutcome) : option string :=
  match outcome with
  | Returned out => Some out
  | Failed raw => raw
  end.

Definition runPipAudit (w : World) : option PipAuditJson :=
  if negb (World.requirements_txt w) && negb (World.pyproject_toml w) then None
  else
    let rawOut :=
      match pipRun (World.pip_audit w) with
      | Some out => Some out
      | None => pipRun (World.python_m_pip_audit w)
      end in
    match rawOut with
    | None => None
    | Some out => World.parsePip w out
    end.

Definition runAudit (w : World) : option NpmAuditJson :=
  if negb (World.package_json w) then None
  else
    match World.npm_audit w with
    | Returned out => World.parseNpm w out
    | Failed (Some raw) => if truthy raw then World.parseNpm w raw else None
    | Failed None => None
    end.

Definition pipAuditFailed : string :=
  "Python project detected but audit failed. Install pip-audit (pip install pip-audit) and ensure Python is on PATH. Try: pip-audit -r requirements.txt or pip-audit . in the project directory.".

Definition getAuditSummary (w : World) : Result AuditSummary :=
  match detectProjectType w with
  | Some python =>
      match runPipAudit w with
      | Some pipAudit => Ok (normalizePipAuditToSummary pipAudit)
      | None => Throw pipAuditFailed
      end
  | None => Ok emptySummary
  | Some node => Ok (normalizeNpmAudit (runAudit w))
  end.

(** ** getShipReadiness *)

Definition reasonNoVulnerabilities : string :=
  "No known vulnerabilities were found in your dependencies. It is reasonable to ship.".

Definition reasonNoBlocking (moderate low : Z) : string :=
  "There are no critical or high severity issues. You have " +:+ showZ moderate
  +:+ " moderate and " +:+ showZ low
  +:+ " low severity findings. Shipping is acceptable from a severity standpoint, but consider scheduling fixes.".

Definition reasonBlocking (critical high : Z) : string :=
  "There are " +:+ showZ critical +:+ " critical and " +:+ showZ high
  +:+ " high severity vulnerabilities. Do not ship until these are addressed.".

Definition recommendKeepScanning : string :=
  "Keep running security checks regularly.".

Definition recommendSuggestUpgrades : string :=
  "Run the " +:+ dquote +:+ "suggest_upgrades" +:+ dquote
  +:+ " tool to get concrete upgrade steps for moderate/low issues.".

Definition recommendUpgradeAndRecheck : string :=
  "Use " +:+ dquote +:+ "suggest_upgrades" +:+ dquote
  +:+ " to get exact upgrade commands, then run them and re-check with "
  +:+ dquote +:+ "is_app_safe_to_ship" +:+ dquote +:+ ".".

(** The body of [getShipReadiness] once the summary is at hand. *)
Definition shipReadinessOf (summary : AuditSummary) : ShipReadiness :=
  let counts := AuditSummary.counts summary in
  let critical := Counts.critical counts in
  let high := Counts.high counts in
  let moderate := Counts.moderate counts in
  let low := Counts.low counts in
  let safeToShip := negb (AuditSummary.hasCriticalOrHigh summary) in
  let '(reason, recommendation) :=
    if safeToShip && (AuditSummary.totalVulnerabilities summary =? 0)
    then (reasonNoVulnerabilities, recommendKeepScanning)
    else if safeToShip
    then (reasonNoBlocking moderate low, recommendSuggestUpgrades)
    else (reasonBlocking critical high, recommendUpgradeAndRecheck) in
  ShipReadiness.mk safeToShip reason critical high moderate low (Some recommendation).

Definition getShipReadiness (w : World) : Result ShipReadiness :=
  summary ← getAuditSummary w; mret (shipReadinessOf summary).

(** ** Array.prototype.sort *)

(** [sort] with a comparator is stable: an element moves behind another only
    when the comparator is positive on the pair.  Insertion from the right
    end is the reference stable sort; the engine may use another algorithm,
    but for a comparator that subtracts scores every stable sort returns the
    same array. *)
Fixpoint insertBy {A : Type} (cmp : A -> A -> Z) (x : A) (l : list A) : list A :=
  match l with
  | [] => [x]
  | y :: l' => if 0 <? cmp x y then y :: insertBy cmp x l' else x :: l
  end.

Fixpoint sortBy {A : Type} (cmp : A -> A -> Z) (l : list A) : list A :=
  match l with
  | [] => []
  | x :: l' => insertBy cmp x (sortBy cmp l')
  end.

(** ** getHighestRiskDependency *)

Module HighestRisk.
Record t : Set := mk {
  highest : option Vulnerability;
  summary : string;
  allBySeverity : list Vulnerability;
}.
End HighestRisk.
Abbreviation HighestRisk := HighestRisk.t.

(** [(a, b) => SEVERITY_SCORE[b.severity] - SEVERITY_SCORE[a.severity]] *)
Definition bySeverityDesc (a b : Vulnerability) : Z :=
  SEVERITY_SCORE (Vulnerability.severity b) - SEVERITY_SCORE (Vulnerability.severity a).

(** How a template literal prints a truthy [fixAvailable]. *)
Definition showFix (f : FixAvailable) : string :=
  match f with
  | FixVersion version => version
  | FixFlag true => "true"
  | FixFlag false => "false"
  | FixAbsent => "undefined"
  end.

Definition highestRiskText (highest : option Vulnerability) : string :=
  match highest with
  | None => "No vulnerabilities found in this codebase."
  | Some v =>
      "Highest risk: **" +:+ Vulnerability.name v +:+ "** ("
      +:+ severityName (Vulnerability.severity v) +:+ "). "
      +:+ nullish (Vulnerability.title v)
            (nullish (Vulnerability.description v) "No description.")
      +:+ (if hasFix (Vulnerability.fixAvailable v)
           then " Fix available: " +:+ showFix (Vulnerability.fixAvailable v) +:+ "."
           else "")
  end.

Definition highestRiskOf (summary : AuditSummary) : HighestRisk :=
  let sorted := sortBy bySeverityDesc (AuditSummary.vulnerabilities summary) in
  let highest := head sorted in
  HighestRisk.mk highest (highestRiskText highest) sorted.

Definition getHighestRiskDependency (w : World) : Result HighestRisk :=
  summary ← getAuditSummary w; mret (highestRiskOf summary).

(** ** getUpgradeSuggestions *)

Definition suggestionFor (isPip : bool) (v : Vulnerability) : UpgradeSuggestion :=
  let target := match Vulnerability.fixAvailable v with
                | FixVersion version => version
                | _ => "latest"
                end in
  let action := if isPip
                then "pip install " +:+ Vulnerability.name v +:+ "==" +:+ target
                else "npm install " +:+ Vulnerability.name v +:+ "@" +:+ target in
  UpgradeSuggestion.mk
    (Vulnerability.name v)
    (nullish (Vulnerability.range v) "unknown")
    target
    (Vulnerability.severity v)
    action
    None.

(** One iteration of the loop: the suggestions pushed so far and [seen]. *)
Definition suggestStep (isPip : bool) (acc : list UpgradeSuggestion * gset string)
    (v : Vulnerability) : list UpgradeSuggestion * gset string :=
  if negb (hasFix (Vulnerability.fixAvailable v))
     || bool_decide (Vulnerability.name v ∈ acc.2)
  then acc
  else (acc.1 ++ [suggestionFor isPip v], {[Vulnerability.name v]} ∪ acc.2).

Definition bySuggestionSeverityDesc (a b : UpgradeSuggestion) : Z :=
  SEVERITY_SCORE (UpgradeSuggestion.severity b) - SEVERITY_SCORE (UpgradeSuggestion.severity a).

(** The suggestions in the order they were pushed, before the final sort. *)
Definition collectSuggestions (isPip : bool) (vulnerabilities : list Vulnerability)
  : list UpgradeSuggestion :=
  (fold_left (suggestStep isPip) vulnerabilities ([], ∅)).1.

Definition upgradeSuggestionsOf (isPip : bool) (audit : AuditSummary)
  : list UpgradeSuggestion :=
  sortBy bySuggestionSeverityDesc
    (collectSuggestions isPip (AuditSummary.vulnerabilities audit)).

Definition upgradeSummaryText (suggestions : list UpgradeSuggestion) : string :=
  match suggestions with
  | [] => "No upgrade fixes available from the audit (or no vulnerabilities). Consider updating packages manually or checking for major-version upgrades."
  | _ => "Apply these " +:+ showZ (Z.of_nat (length suggestions))
         +:+ " upgrade(s) in order of priority (critical/high first):"
  end.

Definition getUpgradeSuggestions (w : World)
  : Result (list UpgradeSuggestion * string) :=
  let projectType := detectProjectType w in
  audit ← getAuditSummary w;
  let isPip := bool_decide (projectType = Some python) in
  let suggestions := upgradeSuggestionsOf isPip audit in
  mret (suggestions, upgradeSummaryText suggestions).

(** ** String operations used by parseGitHubRepo and getRepoId *)

Definition is_space (c : ascii) : bool :=
  let n := nat_of_ascii c in
  ((9 <=? n)%nat && (n <=? 13)%nat) || (n =? 32)%nat.

Definition is_digit (c : ascii) : bool :=
  (48 <=? nat_of_ascii c)%nat && (nat_of_ascii c <=? 57)%nat.

Definition is_lower (c : ascii) : bool :=
  (97 <=? nat_of_ascii c)%nat && (nat_of_ascii c <=? 122)%nat.

(** The class [\w]. *)
Definition is_word (c : ascii) : bool :=
  is_upper c || is_lower c || is_digit c || Ascii.eqb c "_".

(** The class [[-.\w]]. *)
Definition is_name_char (c : ascii) : bool :=
  is_word c || Ascii.eqb c "-" || Ascii.eqb c ".".

Fixpoint trimStart (s : string) : string :=
  match s with
  | String c s' => if is_space c then trimStart s' else s
  | EmptyString => EmptyString
  end.

Fixpoint trimEnd (s : string) : string :=
  match s with
  | String c s' =>
      let rest := trimEnd s' in
      if is_space c && String.eqb rest "" then EmptyString else String c rest
  | EmptyString => EmptyString
  end.

(** [s.trim()] *)
Definition trim (s : string) : string := trimEnd (trimStart s).

(** [s.replace(/\.git$/, '')] *)
Fixpoint dropDotGit (s : string) : string :=
  match s with
  | String c s' => if String.eqb s ".git" then EmptyString else String c (dropDotGit s')
  | EmptyString => EmptyString
  end.

(** [s.includes(sub)] *)
Fixpoint includes (sub s : string) : bool :=
  String.prefix sub s ||
  match s with
  | String _ s' => includes sub s'
  | EmptyString => false
  end.

(** [s.split(sep)] for a one-character separator. *)
Fixpoint split (sep : ascii) (s : string) : list string :=
  match s with
  | EmptyString => [EmptyString]
  | String c s' =>
      if Ascii.eqb c sep then EmptyString :: split sep s'
      else match split sep s' with
           | part :: parts => String c part :: parts
           | [] => [String c EmptyString]
           end
  end.

(** The longest run of [[-.\w]] at the head of [s], and what follows it. *)
Fixpoint spanName (s : string) : string * string :=
  match s with
  | String c s' =>
      if is_name_char c
      then let '(run, rest) := spanName s' in (String c run, rest)
      else (EmptyString, s)
  | EmptyString => (EmptyString, EmptyString)
  end.

(** A capture group of the pattern at the head of [s]: one [\w], then the
    longest run of [[-.\w]].  The quantifier is greedy and what follows the
    group in the pattern is either [\/], which is not in the class, or the
    end of the pattern, so no shorter run can match. *)
Definition matchName (s : string) : option (string * string) :=
  match s with
  | String c s' =>
      if is_word c
      then let '(run, rest) := spanName s' in Some (String c run, rest)
      else None
  | EmptyString => None
  end.

Fixpoint dropChars (n : nat) (s : string) : string :=
  match n, s with
  | S n', String _ s' => dropChars n' s'
  | _, _ => s
  end.

(** The pattern of [parseGitHubRepo] anchored at the head of [s]:
    [github\.com], one of [/] and [:], a group, [\/], a group.  The result is
    the two groups. *)
Definition matchGitHubHere (s : string) : option (string * string) :=
  if String.prefix "github.com" s then
    match dropChars 10 s with
    | String sep s1 =>
        if Ascii.eqb sep "/" || Ascii.eqb sep ":" then
          match matchName s1 with
          | Some (owner, String slash s2) =>
              if Ascii.eqb slash "/" then
                match matchName s2 with
                | Some (repo, _) => Some (owner, repo)
                | None => None
                end
              else None
          | _ => None
          end
        else None
    | EmptyString => None
    end
  else None.

(** [s.match(pattern)]: the groups of the leftmost match. *)
Fixpoint matchGitHub (s : string) : option (string * string) :=
  match matchGitHubHere s with
  | Some groups => Some groups
  | None =>
      match s with
      | String _ s' => matchGitHub s'
      | EmptyString => None
      end
  end.

(** [s.replace(/^\/|\/$/g, '')]: one separator off each end. *)
Definition dropLeadingSlash (s : string) : string :=
  match s with
  | String c s' => if Ascii.eqb c "/" then s' else s
  | EmptyString => EmptyString
  end.

Fixpoint dropTrailingSlash (s : string) : string :=
  match s with
  | String c s' => if String.eqb s "/" then EmptyString else String c (dropTrailingSlash s')
  | EmptyString => EmptyString
  end.

Definition trimSlashes (s : string) : string :=
  dropTrailingSlash (dropLeadingSlash s).

(** ** parseGitHubRepo and getRepoId *)

Definition parseGitHubRepo (spec : string) : Result (string * string) :=
  let trimmed := dropDotGit (trim spec) in
  if includes "github.com/" trimmed then
    match matchGitHub trimmed with
    | None => Throw ("Invalid GitHub URL: " +:+ spec)
    | Some (owner, repo) => Ok (owner, repo)
    end
  else if includes "/" trimmed then
    match map trim (split "/" trimmed) with
    | owner :: repo :: _ =>
        if negb (truthy owner) || negb (truthy repo)
        then Throw ("Invalid GitHub repo: " +:+ spec)
        else Ok (owner, repo)
    | _ => Throw ("Invalid GitHub repo: " +:+ spec)
    end
  else
    Throw ("Invalid GitHub repo: use " +:+ dquote +:+ "owner/repo" +:+ dquote
           +:+ " or full GitHub URL. Got: " +:+ spec).

(** [process.cwd()] and [resolve] of [node:path], which the service imports. *)
Module Process.
Record t : Type := mk {
  cwd : string;
  resolve : string -> string;
}.
End Process.
Abbreviation Process := Process.t.

Module RepoOptions.
Record t : Set := mk {
  githubRepo : option string;
  ref : option string;
  subpath : option string;
  projectPath : option string;
}.
End RepoOptions.
Abbreviation RepoOptions := RepoOptions.t.

(** [o] when it is a non-empty string: the test [if (o)] on [string | undefined]. *)
Definition whenTruthy (o : option string) : option string :=
  match o with
  | Some s => if truthy s then Some s else None
  | None => None
  end.

Definition getRepoId (proc : Process) (options : RepoOptions) : Result string :=
  match whenTruthy (RepoOptions.githubRepo options) with
  | Some githubRepo =>
      parsed ← parseGitHubRepo githubRepo;
      let base := parsed.1 +:+ "/" +:+ parsed.2 in
      match whenTruthy (trimSlashes <$> RepoOptions.subpath options) with
      | Some sub => mret (base +:+ ":" +:+ sub)
      | None => mret base
      end
  | None =>
      let path := match whenTruthy (RepoOptions.projectPath options) with
                  | Some projectPath => Process.resolve proc projectPath
                  | None => Process.cwd proc
                  end in
      mret ("local:" +:+ path)
  end.

(** ** Scan history: diffVulnerabilities and compareScansOverTime *)

Definition MAX_SCANS_PER_REPO : nat := 20.

(** [key] of [diffVulnerabilities]. *)
Definition vulnKey (v : Vulnerability) : string :=
  Vulnerability.name v +:+ ":" +:+ severityName (Vulnerability.severity v).

Definition diffVulnerabilities (baseline current : list Vulnerability)
  : list Vulnerability * list Vulnerability :=
  let currentSet : gset string := list_to_set (map vulnKey current) in
  let baselineSet : gset string := list_to_set (map vulnKey baseline) in
  let fixed := filter (fun v => vulnKey v ∉ currentSet) baseline in
  let introduced := filter (fun v => vulnKey v ∉ baselineSet) current in
  (fixed, introduced).

(** [l.slice(-n)] *)
Definition sliceLast {A : Type} (n : nat) (l : list A) : list A :=
  drop (length l - n)%nat l.

(** What one call reads from the clock and the random source:
    [new Date().toISOString()], [Date.now()] and
    [Math.random().toString(36).slice(2, 9)]. *)
Module Clock.
Record t : Set := mk {
  isoString : string;
  now : Z;
  random : string;
}.
End Clock.
Abbreviation Clock := Clock.t.

Module ScanOptions.
Record t : Set := mk {
  ref : option string;
  subpath : option string;
  projectType : option ProjectType;
}.
End ScanOptions.
Abbreviation ScanOptions := ScanOptions.t.

(** The static [scanStore]. *)
Abbreviation ScanStore := (gmap string (list SavedScan)).

Definition makeScan (clock : Clock) (repoId : string) (currentSummary : AuditSummary)
    (options : ScanOptions) : SavedScan :=
  SavedScan.mk
    ("scan-" +:+ showZ (Clock.now clock) +:+ "-" +:+ Clock.random clock)
    repoId
    (ScanOptions.ref options)
    (ScanOptions.subpath options)
    (Clock.isoString clock)
    currentSummary
    (ScanOptions.projectType options).

Definition firstScanText (repoId : string) (currentSummary : AuditSummary) : string :=
  "First scan saved for **" +:+ repoId +:+ "**. Total: "
  +:+ showZ (AuditSummary.totalVulnerabilities currentSummary)
  +:+ " vulnerability(ies). "
  +:+ "Run this tool again after making changes to compare over time.".

Definition comparedText (repoId : string) (previous : SavedScan) (scannedAt : string)
    (totalFixed totalIntroduced : nat) (delta : Z) : string :=
  "Compared **" +:+ repoId +:+ "**: baseline " +:+ SavedScan.scannedAt previous
  +:+ " → current " +:+ scannedAt +:+ ". "
  +:+ (if (0 <? totalFixed)%nat
       then "**" +:+ showZ (Z.of_nat totalFixed) +:+ "** fixed. " else "")
  +:+ (if (0 <? totalIntroduced)%nat
       then "**" +:+ showZ (Z.of_nat totalIntroduced) +:+ "** new or reintroduced. "
       else "")
  +:+ "Total change: " +:+ (if 0 <=? delta then "+" else "") +:+ showZ delta
  +:+ " vulnerability(ies).".

(** The signed change in the number of findings between two summaries. *)
Definition totalDelta (previous current : AuditSummary) : Z :=
  AuditSummary.totalVulnerabilities current - AuditSummary.totalVulnerabilities previous.

(** The store is read, appended to and written back; the result and the new
    store are returned together. *)
Definition compareScansOverTime (store : ScanStore) (clock : Clock) (repoId : string)
    (currentSummary : AuditSummary) (options : ScanOptions)
  : CompareScansResult * ScanStore :=
  let scannedAt := Clock.isoString clock in
  let scan := makeScan clock repoId currentSummary options in
  let list0 := nullish (store !! repoId) [] in
  let previous := last list0 in
  let list1 := sliceLast MAX_SCANS_PER_REPO (list0 ++ [scan]) in
  let store' := <[repoId := list1]> store in
  let currentSnapshot :=
    Snapshot.mk scannedAt (AuditSummary.counts currentSummary)
      (AuditSummary.totalVulnerabilities currentSummary) in
  match previous with
  | None =>
      (CompareScansResult.mk repoId currentSnapshot currentSnapshot [] []
         (firstScanText repoId currentSummary) (Some true), store')
  | Some previous =>
      let '(fixed, introduced) :=
        diffVulnerabilities
          (AuditSummary.vulnerabilities (SavedScan.summary previous))
          (AuditSummary.vulnerabilities currentSummary) in
      let delta := totalDelta (SavedScan.summary previous) currentSummary in
      (CompareScansResult.mk repoId
         (Snapshot.mk (SavedScan.scannedAt previous)
            (AuditSummary.counts (SavedScan.summary previous))
            (AuditSummary.totalVulnerabilities (SavedScan.summary previous)))
         currentSnapshot fixed introduced
         (comparedText repoId previous scannedAt (length fixed) (length introduced) delta)
         None, store')
  end.

(** ** Vocabulary of the statements *)

(** The two properties every [AuditSummary] is meant to have. *)
Definition summaryInvariant (s : AuditSummary) : Prop :=
  AuditSummary.totalVulnerabilities s = Z.of_nat (length (AuditSummary.vulnerabilities s))
  /\ (AuditSummary.hasCriticalOrHigh s = true <->
      0 < Counts.critical (AuditSummary.counts s) \/ 0 < Counts.high (AuditSummary.counts s)).

(** How many of the listed findings have severity [s]. *)
Definition listed (s : SeverityLevel) (l : list Vulnerability) : Z :=
  Z.of_nat (length (filter (fun v => Vulnerability.severity v = s) l)).

(** The counters agree with the list they were built with. *)
Definition countsAgree (acc : Accum) : Prop :=
  forall s, getCount acc.1 s = listed s acc.2.

Definition sumCounts (c : Counts) : Z :=
  Counts.critical c + Counts.high c + Counts.moderate c + Counts.low c + Counts.info c.

(** A project with a [package.json] whose [npm audit --json] cannot be run
    and prints nothing that parses. *)
Definition brokenNpmWorld : World :=
  World.mk true false false false
    (Failed (Some "npm ERR! audit endpoint returned an error"))
    (Failed None) (Failed None)
    (fun _ => None) (fun _ => None).

(** A project with a [requirements.txt] on a machine without pip-audit. *)
Definition brokenPipWorld : World :=
  World.mk false true false false
    (Failed None) (Failed None) (Failed None)
    (fun _ => None) (fun _ => None).

(** pip-audit output with one finding whose severity field reads
    [constructor]. *)
Definition inheritedKeyAudit : PipAuditJson :=
  PipArray
    [PipAuditDep.mk "requests" "2.19.0"
       (Some [PipAuditVuln.mk (Some "PYSEC-2018-28") (Some ["2.20.0"]) None
                (Some "constructor")])].

(** The report of the end-to-end scenario: npm counted 1 critical, 2 high,
    3 moderate and 1 low finding and enumerates one, for [lodash]. *)
Definition scenarioReport : NpmAuditJson :=
  NpmAuditJson.mk (Some 2)
    (Some [("lodash",
            NpmAuditVuln.mk (Some "high")
              (Some (ViaList [ViaText "lodash: Prototype Pollution"]))
              None None None
              (Some (RawFixObject None (Some "4.17.21"))))])
    (Some (NpmMetadata.mk
             (Some (NpmMetaCounts.mk (Some 0) (Some 1) (Some 3) (Some 2) (Some 1))))).

(** A node project on which [npm audit --json] prints that report. *)
Definition scenarioWorld : World :=
  World.mk true false false false
    (Failed (Some "{...}")) (Failed None) (Failed None)
    (fun _ => Some scenarioReport) (fun _ => None).


(** A list is in non-increasing order of [score]. *)
Definition descending {A : Type} (score : A -> Z) (l : list A) : Prop :=
  StronglySorted (fun a b => score b <= score a) l.

(** The entries of [l] whose score is [z], in the order they have in [l]. *)
Definition withScore {A : Type} (score : A -> Z) (z : Z) (l : list A) : list A :=
  filter (fun a => score a = z) l.

(** The comparator that puts the higher score first. *)
Definition byScoreDesc {A : Type} (score : A -> Z) (a b : A) : Z := score b - score a.

Definition vulnerabilityScore (v : Vulnerability) : Z :=
  SEVERITY_SCORE (Vulnerability.severity v).

Definition suggestionScore (u : UpgradeSuggestion) : Z :=
  SEVERITY_SCORE (UpgradeSuggestion.severity u).

(** [v] is, among [findings], the first finding of its package that has a fix. *)
Definition firstWithFix (findings : list Vulnerability) (v : Vulnerability) : Prop :=
  exists before after,
    findings = before ++ v :: after
    /\ hasFix (Vulnerability.fixAvailable v) = true
    /\ forall u, u ∈ before -> Vulnerability.name u = Vulnerability.name v ->
                 hasFix (Vulnerability.fixAvailable u) = false.

(** What the loop of [getUpgradeSuggestions] maintains once it has gone
    through the findings [processed]. *)
Definition suggestInvariant (isPip : bool) (processed : list Vulnerability)
    (acc : list UpgradeSuggestion * gset string) : Prop :=
  (forall n, n ∈ acc.2 <-> n ∈ map UpgradeSuggestion.package acc.1)
  /\ NoDup (map UpgradeSuggestion.package acc.1)
  /\ (forall sug, sug ∈ acc.1 ->
        exists v, firstWithFix processed v /\ sug = suggestionFor isPip v)
  /\ (forall v, v ∈ processed -> hasFix (Vulnerability.fixAvailable v) = true ->
                Vulnerability.name v ∈ acc.2).

(** [s] holds the character [c]. *)
Fixpoint contains (c : ascii) (s : string) : bool :=
  match s with
  | String d s' => Ascii.eqb d c || contains c s'
  | EmptyString => false
  end.

(** The diff key as the pair it stands for. *)
Definition pairKey (v : Vulnerability) : string * SeverityLevel :=
  (Vulnerability.name v, Vulnerability.severity v).

(** The diff in the words of the specification: [fixed] holds the baseline
    entries whose (package name, severity) pair no current entry has,
    [introduced] the current entries whose pair no baseline entry has. *)
Definition diffByPair (baseline current : list Vulnerability)
  : list Vulnerability * list Vulnerability :=
  (filter (fun v => pairKey v ∉ map pairKey current) baseline,
   filter (fun v => pairKey v ∉ map pairKey baseline) current).

(** What [compareScansOverTime] reports of a saved scan. *)
Definition snapshotOf (scan : SavedScan) : Snapshot :=
  Snapshot.mk (SavedScan.scannedAt scan)
    (AuditSummary.counts (SavedScan.summary scan))
    (AuditSummary.totalVulnerabilities (SavedScan.summary scan)).

(** The history of a target key: [scanStore.get(repoId) ?? []]. *)
Definition historyOf (store : ScanStore) (repoId : string) : list SavedScan :=
  nullish (store !! repoId) [].

(** One call of [compareScansOverTime], with what it reads from the clock. *)
Module Call.
Record t : Set := mk {
  clock : Clock;
  repoId : string;
  summary : AuditSummary;
  options : ScanOptions;
}.
End Call.
Abbreviation Call := Call.t.

(** The scan a call saves. *)
Definition callScan (c : Call) : SavedScan :=
  makeScan (Call.clock c) (Call.repoId c) (Call.summary c) (Call.options c).

(** The store after a sequence of calls. *)
Definition runCalls (store : ScanStore) (calls : list Call) : ScanStore :=
  fold_left
    (fun st c =>
       (compareScansOverTime st (Call.clock c) (Call.repoId c) (Call.summary c)
          (Call.options c)).2)
    calls store.

(** The scans the calls on the key [repoId] save, oldest first. *)
Definition scansFor (repoId : string) (calls : list Call) : list SavedScan :=
  map callScan (filter (fun c => Call.repoId c = repoId) calls).

(** Twenty-five scans of one repository, numbered by their clock. *)
Definition twentyFiveCalls : list Call :=
  map (fun i => Call.mk (Clock.mk "2025-01-01T00:00:00.000Z" (Z.of_nat i) "k3j9x2a")
                  "acme/widgets" emptySummary (ScanOptions.mk None None (Some node)))
      (seq 1 25).

(** A report that enumerates a critical finding but carries no metadata block. *)
Definition reportWithoutMetadata : NpmAuditJson :=
  NpmAuditJson.mk (Some 2)
    (Some [("minimist",
            NpmAuditVuln.mk (Some "critical")
              (Some (ViaList [ViaAdvisory (Some "Prototype Pollution in minimist")]))
              (Some true) None (Some "<0.2.4")
              (Some (RawFixBoolean true)))])
    None.

(** A python project where [pip-audit] is not on the path: the shell fails
    with nothing on standard output, and the module form would have worked. *)
Definition pipNotOnPathWorld : World :=
  World.mk false true false false
    (Failed None) (Failed (Some "")) (Returned "[]")
    (fun _ => None)
    (fun out => if String.eqb out "[]" then Some (PipArray []) else None).

(** The findings of one severity, in the order of the list. *)
Definition ofSeverity (s : SeverityLevel) (l : list Vulnerability) : list Vulnerability :=
  filter (fun v => Vulnerability.severity v = s) l.

(** The findings grouped by severity, the groups in the order of
    [SEVERITY_ORDER]. *)
Definition groupedBySeverity (l : list Vulnerability) : list Vulnerability :=
  concat (map (fun s => ofSeverity s l) SEVERITY_ORDER).

(** Three findings, the two critical ones second and third. *)
Definition mixedSummary : AuditSummary :=
  AuditSummary.mk (Counts.mk 2 0 0 1 0) 3 true
    [Vulnerability.mk "debug" low None None None FixAbsent None None None;
     Vulnerability.mk "minimist" critical None None None (FixFlag true) None None None;
     Vulnerability.mk "lodash" critical None None None (FixVersion "4.17.21") None None None].

(** What the pip adapter lists for one raw finding, if anything. *)
Definition pipEntry (dep : PipAuditDep) (v : PipAuditVuln) : option Vulnerability :=
  match inSeverityOrder (pipSeverity (PipAuditVuln.known_severity v)) with
  | Some sev => Some (pipVulnerability dep v sev)
  | None => None
  end.

(** What the pip adapter lists for one dependency. *)
Definition pipEntries (dep : PipAuditDep) : list Vulnerability :=
  omap (pipEntry dep) (nullish (PipAuditDep.vulns dep) []).

(** What the npm adapter lists for one entry of the vulnerability map, if
    anything. *)
Definition npmEntry (entry : string * NpmAuditVuln) : option Vulnerability :=
  match severityOfString (nullish (NpmAuditVuln.severity entry.2) "moderate") with
  | Some sev => Some (npmVulnerability entry.1 entry.2 sev)
  | None => None
  end.

(** The names of the packages for which some finding has a fix. *)
Definition fixablePackages (findings : list Vulnerability) : gset string :=
  list_to_set
    (map Vulnerability.name
       (filter (fun v => hasFix (Vulnerability.fixAvailable v) = true) findings)).

(** The text of an install command for a package and a target. *)
Definition installCommand (isPip : bool) (package target : string) : string :=
  if isPip then "pip install " +:+ package +:+ "==" +:+ target
  else "npm install " +:+ package +:+ "@" +:+ target.

(** Every character of [s] satisfies [p]. *)
Fixpoint allChars (p : ascii -> bool) (s : string) : bool :=
  match s with
  | String c s' => p c && allChars p s'
  | EmptyString => true
  end.

(** [s.endsWith(suffix)] *)
Fixpoint endsWith (suffix s : string) : bool :=
  String.eqb s suffix ||
  match s with
  | String _ s' => endsWith suffix s'
  | EmptyString => false
  end.

(** A name a capture group of the pattern matches in full: a [\w] followed
    by characters of [[-.\w]]. *)
Definition wellFormedName (s : string) : bool :=
  match s with
  | String c rest => is_word c && allChars is_name_char rest
  | EmptyString => false
  end.

(** ** getVulnerabilitiesSummary *)

(** [Record<SeverityLevel, string[]>] *)
Module Lines.
Record t : Set := mk {
  critical : list string;
  high : list string;
  moderate : list string;
  low : list string;
  info : list string;
}.
Definition empty : t := mk [] [] [] [] [].
End Lines.
Abbreviation Lines := Lines.t.

(** [bySeverity[s]] *)
Definition getLines (b : Lines) (s : SeverityLevel) : list string :=
  match s with
  | critical => Lines.critical b
  | high => Lines.high b
  | moderate => Lines.moderate b
  | low => Lines.low b
  | info => Lines.info b
  end.

(** [bySeverity[s].push(line)] *)
Definition pushLine (b : Lines) (s : SeverityLevel) (line : string) : Lines :=
  match s with
  | critical => Lines.mk (Lines.critical b ++ [line]) (Lines.high b) (Lines.moderate b)
                  (Lines.low b) (Lines.info b)
  | high => Lines.mk (Lines.critical b) (Lines.high b ++ [line]) (Lines.moderate b)
              (Lines.low b) (Lines.info b)
  | moderate => Lines.mk (Lines.critical b) (Lines.high b) (Lines.moderate b ++ [line])
                  (Lines.low b) (Lines.info b)
  | low => Lines.mk (Lines.critical b) (Lines.high b) (Lines.moderate b)
             (Lines.low b ++ [line]) (Lines.info b)
  | info => Lines.mk (Lines.critical b) (Lines.high b) (Lines.moderate b)
              (Lines.low b) (Lines.info b ++ [line])
  end.

Definition upper_char (c : ascii) : ascii :=
  if is_lower c then ascii_of_nat (nat_of_ascii c - 32) else c.

(** [s.toUpperCase()] *)
Fixpoint toUpperCase (s : string) : string :=
  match s with
  | EmptyString => EmptyString
  | String c s' => String (upper_char c) (toUpperCase s')
  end.

(** The line feed that joins the parts of a text. *)
Definition newline : string := String (ascii_of_nat 10) EmptyString.

(** The line that describes one finding. *)
Definition vulnerabilityLine (v : Vulnerability) : string :=
  let title := nullish (Vulnerability.title v) "Vulnerability" in
  let fixed := hasFix (Vulnerability.fixAvailable v) in
  match Vulnerability.isDirect v with
  | Some true =>
      Vulnerability.name v +:+ ": " +:+ title +:+ " (direct dependency). "
      +:+ (if fixed
           then "Fix: upgrade to " +:+ showFix (Vulnerability.fixAvailable v) +:+ "."
           else "")
  | _ =>
      Vulnerability.name v +:+ ": " +:+ title +:+ " (transitive). "
      +:+ (if fixed
           then "Fix: " +:+ showFix (Vulnerability.fixAvailable v) +:+ "."
           else "")
  end.

(** The loop that fills [bySeverity]. *)
Definition groupLines (vulnerabilities : list Vulnerability) : Lines :=
  fold_left (fun b v => pushLine b (Vulnerability.severity v) (vulnerabilityLine v))
    vulnerabilities Lines.empty.

(** What one iteration of [for (const sev of SEVERITY_ORDER)] pushes. *)
Definition renderGroup (sev : SeverityLevel) (lines : list string) : list string :=
  match lines with
  | [] => []
  | _ =>
      ["**" +:+ toUpperCase (severityName sev) +:+ "** ("
       +:+ showZ (Z.of_nat (length lines)) +:+ "):"]
      ++ map (fun l => "- " +:+ l) (take 10 lines)
      ++ (if (10 <? length lines)%nat
          then ["- … and " +:+ showZ (Z.of_nat (length lines) - 10) +:+ " more."]
          else [])
  end.

(** The array [parts]. *)
Definition summaryParts (audit : AuditSummary) (bySeverity : Lines) : list string :=
  if AuditSummary.totalVulnerabilities audit =? 0
  then ["No vulnerabilities were found in your dependencies."]
  else
    ["Your project has **" +:+ showZ (AuditSummary.totalVulnerabilities audit)
     +:+ "** vulnerability findings."]
    ++ concat (map (fun sev => renderGroup sev (getLines bySeverity sev)) SEVERITY_ORDER)
    ++ ["Use " +:+ dquote +:+ "suggest_upgrades" +:+ dquote
        +:+ " to get exact commands to fix them."].

Module VulnerabilitiesSummary.
Record t : Set := mk {
  summary : string;
  bySeverity : Lines;
  total : Z;
}.
End VulnerabilitiesSummary.
Abbreviation VulnerabilitiesSummary := VulnerabilitiesSummary.t.

(** The body of [getVulnerabilitiesSummary] once the summary is at hand. *)
Definition vulnerabilitiesSummaryOf (audit : AuditSummary) : VulnerabilitiesSummary :=
  let bySeverity := groupLines (AuditSummary.vulnerabilities audit) in
  VulnerabilitiesSummary.mk
    (String.concat newline (summaryParts audit bySeverity))
    bySeverity
    (AuditSummary.totalVulnerabilities audit).

Definition getVulnerabilitiesSummary (w : World) : Result VulnerabilitiesSummary :=
  audit ← getAuditSummary w; mret (vulnerabilitiesSummaryOf audit).

(** The text for a summary without findings. *)
Definition noVulnerabilitiesText : string :=
  "No vulnerabilities were found in your dependencies.".

(** Twelve findings of one package, all high. *)
Definition twelveHighSummary : AuditSummary :=
  summaryOf
    (Counts.mk 0 12 0 0 0,
     map (fun i => Vulnerability.mk "lodash" high (Some ("GHSA-" +:+ showZ (Z.of_nat i)))
                     None None FixAbsent None (Some true) None) (seq 1 12)).

(** ** Fetching a project from GitHub *)

(** What [await fetch(url, ...)] does: it throws with a message, or it
    resolves to a response of which the service reads the status, the status
    text and the body. *)
Inductive HttpOutcome : Set :=
  | NetworkError (message : string)
  | HttpResponse (status : Z) (statusText text : string).

(** [res.ok] *)
Definition responseOk (status : Z) : bool := (200 <=? status) && (status <=? 299).

(** [text || res.statusText] *)
Definition orStatusText (text statusText : string) : string :=
  if truthy text then text else statusText.

(** [text.includes('rate limit') || text.includes('Rate limit')] *)
Definition mentionsRateLimit (text : string) : bool :=
  includes "rate limit" text || includes "Rate limit" text.

(** [!!process.env.GITHUB_TOKEN?.trim()] *)
Definition hasToken (token : option string) : bool :=
  match token with
  | Some t => truthy (trim t)
  | None => false
  end.

(** [checkRepoAccess], given the outcome of its request. *)
Definition checkRepoAccess (token : option string) (owner repo : string)
    (outcome : HttpOutcome) : Result unit :=
  match outcome with
  | NetworkError msg =>
      Throw ("Failed to reach GitHub (" +:+ owner +:+ "/" +:+ repo
             +:+ "). Check network or try again. " +:+ msg)
  | HttpResponse status statusText text =>
      if status =? 404 then
        Throw (if hasToken token
               then "Repo " +:+ owner +:+ "/" +:+ repo
                    +:+ " not found. Check spelling and that you have access (token scope must include repo)."
               else "Repo " +:+ owner +:+ "/" +:+ repo
                    +:+ " not found or it is private. For private repos, set GITHUB_TOKEN in your .env.")
      else if status =? 403 then
        Throw (if mentionsRateLimit text
               then "GitHub API rate limit exceeded. Set GITHUB_TOKEN in .env for higher limits, or try again later."
               else "GitHub API 403: " +:+ orStatusText text statusText)
      else if negb (responseOk status) then
        Throw ("GitHub API " +:+ showZ status +:+ ": " +:+ orStatusText text statusText)
      else Ok tt
  end.

(** [fetchFromGitHub], given the outcome of its request: the raw content, or
    [null] when the file does not exist. *)
Definition fetchFromGitHub (filePath : string) (outcome : HttpOutcome)
  : Result (option string) :=
  match outcome with
  | NetworkError msg =>
      Throw ("Failed to fetch " +:+ filePath +:+ " from GitHub. Check network. " +:+ msg)
  | HttpResponse status statusText text =>
      if status =? 404 then Ok None
      else if status =? 403 then
        Throw (if mentionsRateLimit text
               then "GitHub API rate limit exceeded. Try again later or set GITHUB_TOKEN."
               else "GitHub API 403: " +:+ orStatusText text statusText)
      else if negb (responseOk status) then
        Throw ("GitHub API " +:+ showZ status +:+ ": " +:+ orStatusText text statusText)
      else Ok (Some text)
  end.

(** What [prepareProjectFromGitHub] reads from outside: the token, the answer
    of the Repos API for an owner and a repository, the answer of the
    Contents API for an owner, a repository, a path and a ref, the directory
    [mkdtempSync] creates, and whether [npm install --package-lock-only]
    succeeds in it. *)
Module Remote.
Record t : Type := mk {
  token : option string;
  repository : string -> string -> HttpOutcome;
  contents : string -> string -> string -> option string -> HttpOutcome;
  tmpDir : string;
  lockOnlyInstall : bool;
}.
End Remote.
Abbreviation Remote := Remote.t.

(** The temporary directory of one call: not created, present with the files
    the service wrote into it (oldest first), or removed by [cleanup]. *)
Inductive TempDir : Set :=
  | NotCreated
  | Present (files : list (string * string))
  | Removed.

(** [ResolvedProject]: the path, and whether a [cleanup] comes with it. *)
Module ResolvedProject.
Record t : Set := mk {
  path : string;
  cleanup : bool;
}.
End ResolvedProject.
Abbreviation ResolvedProject := ResolvedProject.t.

(** A fetched file that is there and not empty: the test [if (content)]. *)
Definition fetched (r : Result (option string)) : Result (option string) :=
  match r with
  | Ok content => Ok (whenTruthy content)
  | Throw m => Throw m
  end.

Definition noLockfile (location owner repo : string) : string :=
  "No package-lock.json or npm-shrinkwrap.json at " +:+ location +:+ owner +:+ "/" +:+ repo
  +:+ ". Generating lockfile failed. Add a lockfile to the repo or use a branch that has one.".

Definition noProject (location owner repo : string) (subpath : option string) : string :=
  "No supported project found at " +:+ location +:+ owner +:+ "/" +:+ repo +:+ ". "
  +:+ "Expected package.json (Node.js) or requirements.txt / pyproject.toml (Python). "
  +:+ match whenTruthy subpath with
      | Some sub => "Check subpath " +:+ dquote +:+ sub +:+ dquote +:+ "."
      | None => "Use " +:+ dquote +:+ "subpath" +:+ dquote
                +:+ " if the project is in a subdirectory."
      end.

(** The [try] block of [prepareProjectFromGitHub]: the outcome, and the files
    written into the temporary directory so far. *)
Definition stageProject (remote : Remote) (owner repo : string)
    (ref subpath : option string) : Result unit * list (string * string) :=
  let prefix := match whenTruthy subpath with
                | Some sub => trimSlashes sub +:+ "/"
                | None => ""
                end in
  let location := if truthy prefix then prefix else "root of " in
  let fetch := fun name =>
    fetched (fetchFromGitHub (prefix +:+ name)
               (Remote.contents remote owner repo (prefix +:+ name) ref)) in
  match fetch "package.json" with
  | Throw m => (Throw m, [])
  | Ok (Some pkgJson) =>
      let written := [("package.json", pkgJson)] in
      match fetch "package-lock.json" with
      | Throw m => (Throw m, written)
      | Ok (Some lockJson) => (Ok tt, written ++ [("package-lock.json", lockJson)])
      | Ok None =>
          match fetch "npm-shrinkwrap.json" with
          | Throw m => (Throw m, written)
          | Ok (Some lockJson) => (Ok tt, written ++ [("package-lock.json", lockJson)])
          | Ok None =>
              if Remote.lockOnlyInstall remote then (Ok tt, written)
              else (Throw (noLockfile location owner repo), written)
          end
      end
  | Ok None =>
      match fetch "requirements.txt" with
      | Throw m => (Throw m, [])
      | Ok (Some reqTxt) => (Ok tt, [("requirements.txt", reqTxt)])
      | Ok None =>
          match fetch "pyproject.toml" with
          | Throw m => (Throw m, [])
          | Ok (Some pyproject) => (Ok tt, [("pyproject.toml", pyproject)])
          | Ok None => (Throw (noProject location owner repo subpath), [])
          end
      end
  end.

(** The result, and what has become of the temporary directory. *)
Definition prepareProjectFromGitHub (remote : Remote) (githubRepo : string)
    (ref subpath : option string) : Result ResolvedProject * TempDir :=
  match parseGitHubRepo githubRepo with
  | Throw m => (Throw m, NotCreated)
  | Ok (owner, repo) =>
      match checkRepoAccess (Remote.token remote) owner repo
              (Remote.repository remote owner repo) with
      | Throw m => (Throw m, NotCreated)
      | Ok _ =>
          match stageProject remote owner repo ref subpath with
          | (Ok _, files) =>
              (Ok (ResolvedProject.mk (Remote.tmpDir remote) true), Present files)
          | (Throw m, _) => (Throw m, Removed)
          end
      end
  end.

Definition resolveProjectRoot (proc : Process) (remote : Remote) (options : RepoOptions)
  : Result ResolvedProject * TempDir :=
  match whenTruthy (RepoOptions.githubRepo options) with
  | Some githubRepo =>
      prepareProjectFromGitHub remote githubRepo (RepoOptions.ref options)
        (RepoOptions.subpath options)
  | None =>
      let path := match whenTruthy (RepoOptions.projectPath options) with
                  | Some projectPath => Process.resolve proc projectPath
                  | None => Process.cwd proc
                  end in
      (Ok (ResolvedProject.mk path false), NotCreated)
  end.

(** [withResolvedProject] of security-assistant.tools.ts: [fn] runs on the
    resolved path, and [cleanup], when there is one, runs after it whether it
    returned or threw. *)
Definition withResolvedProject {T : Type} (proc : Process) (remote : Remote)
    (args : RepoOptions) (fn : string -> Result T) : Result T * TempDir :=
  match resolveProjectRoot proc remote args with
  | (Throw m, dir) => (Throw m, dir)
  | (Ok resolved, dir) =>
      (fn (ResolvedProject.path resolved),
       if ResolvedProject.cleanup resolved then Removed else dir)
  end.

(** The manifests [detectProjectType] would find among the written files. *)
Definition hasFile (name : string) (files : list (string * string)) : bool :=
  bool_decide (name ∈ map fst files).

(** A repository with a [package.json] and a lockfile at its root. *)
Definition nodeRemote : Remote :=
  Remote.mk None
    (fun _ _ => HttpResponse 200 "OK" "{}")
    (fun _ _ path _ =>
       if String.eqb path "package.json" then HttpResponse 200 "OK" "{ }"
       else if String.eqb path "package-lock.json" then HttpResponse 200 "OK" "{  }"
       else HttpResponse 404 "Not Found" "")
    "/tmp/risklens-acme-widgets-a1b2c3" false.

(** A repository whose [package.json] is an empty file and which has a
    [requirements.txt]. *)
Definition emptyManifestRemote : Remote :=
  Remote.mk None
    (fun _ _ => HttpResponse 200 "OK" "{}")
    (fun _ _ path _ =>
       if String.eqb path "package.json" then HttpResponse 200 "OK" ""
       else if String.eqb path "requirements.txt" then HttpResponse 200 "OK" "flask==0.12"
       else HttpResponse 404 "Not Found" "")
    "/tmp/risklens-acme-widgets-d4e5f6" false.

(** The directory [getAuditSummary] sees when it is run on the files the
    service staged, with the scanners of [w]. *)
Definition stagedWorld (files : list (string * string)) (w : World) : World :=
  World.mk (hasFile "package.json" files) (hasFile "requirements.txt" files)
    (hasFile "pyproject.toml" files) (hasFile "Pipfile" files)
    (World.npm_audit w) (World.pip_audit w) (World.python_m_pip_audit w)
    (World.parseNpm w) (World.parsePip w).

(** The shapes a staged directory can have. *)
Definition stagedShape (files : list (string * string)) : Prop :=
  (exists pkg, pkg <> "" /\ files = [("package.json", pkg)])
  \/ (exists pkg lock, pkg <> "" /\ lock <> ""
                       /\ files = [("package.json", pkg); ("package-lock.json", lock)])
  \/ (exists req, req <> "" /\ files = [("requirements.txt", req)])
  \/ (exists pyproject, pyproject <> "" /\ files = [("pyproject.toml", pyproject)]).

(** Two scans of one package whose advisories differ although their
    (name, severity) pairs are the same. *)
Definition advisoryBefore : list Vulnerability :=
  [Vulnerability.mk "lodash" high (Some "Prototype Pollution") (Some "GHSA-p6mc-m468-83gw")
     None (FixVersion "4.17.19") None (Some true) None].

Definition advisoryAfter : list Vulnerability :=
  [Vulnerability.mk "lodash" high (Some "Command Injection") (Some "GHSA-35jh-r3h4-6jhm")
     None (FixVersion "4.17.21") None (Some true) None;
   Vulnerability.mk "lodash" high (Some "ReDoS") (Some "GHSA-29mw-wpgm-hmr9")
     None (FixVersion "4.17.21") None (Some true) None].




(** The working directory of the examples. *)
Definition sampleProcess : Process :=
  Process.mk "/srv/app" (fun p => "/srv/app/" +:+ p).

(** * Properties *)

Section Folding.
Context {A B : Type}.

Lemma fold_left_invariant (P : A -> Prop) (f : A -> B -> A) (l : list B) (a : A) :
  P a -> (forall a b, P a -> P (f a b)) -> P (fold_left f l a).
Proof.
  intros Ha Hstep. revert a Ha.
  induction l as [|b l IH]; intros a Ha; simpl; [exact Ha|].
  apply IH, Hstep, Ha.
Qed.
End Folding.

(** ** The pip adapter counts what it lists *)

Lemma getCount_increment (c : Counts) (sev s : SeverityLevel) :
  getCount (increment c sev) s = if decide (s = sev) then getCount c s + 1 else getCount c s.
Proof. destruct sev, s; reflexivity. Qed.

Lemma listed_snoc (s : SeverityLevel) (l : list Vulnerability) (v : Vulnerability) :
  listed s (l ++ [v]) =
  if decide (s = Vulnerability.severity v) then listed s l + 1 else listed s l.
Proof.
  unfold listed. rewrite filter_app, length_app.
  rewrite filter_cons, filter_nil.
  destruct (decide (Vulnerability.severity v = s)) as [E|N];
    destruct (decide (s = Vulnerability.severity v)) as [E'|N']; simpl; try congruence; lia.
Qed.

Lemma pipStep_severity (dep : PipAuditDep) (v : PipAuditVuln) (sev : SeverityLevel) :
  Vulnerability.severity (pipVulnerability dep v sev) = sev.
Proof. reflexivity. Qed.

Lemma pipStep_agree (dep : PipAuditDep) (acc : Accum) (v : PipAuditVuln) :
  countsAgree acc -> countsAgree (pipStep dep acc v).
Proof.
  intros H. unfold pipStep.
  destruct (inSeverityOrder _) as [sev|]; [|exact H].
  intros s. simpl. rewrite getCount_increment, listed_snoc, pipStep_severity.
  rewrite (H s). reflexivity.
Qed.

Lemma pipDepStep_agree (acc : Accum) (dep : PipAuditDep) :
  countsAgree acc -> countsAgree (pipDepStep acc dep).
Proof.
  intros H. unfold pipDepStep.
  apply fold_left_invariant; [exact H|]. intros a b. apply pipStep_agree.
Qed.

Lemma pip_accum_agree (deps : list PipAuditDep) :
  countsAgree (fold_left pipDepStep deps (Counts.zero, [])).
Proof.
  apply fold_left_invariant.
  - intros s. destruct s; reflexivity.
  - intros a b. apply pipDepStep_agree.
Qed.

Lemma listed_total (l : list Vulnerability) :
  listed critical l + listed high l + listed moderate l + listed low l + listed info l
  = Z.of_nat (length l).
Proof.
  unfold listed. induction l as [|v l IH]; [reflexivity|].
  rewrite !filter_cons.
  destruct (Vulnerability.severity v);
    repeat match goal with |- context [decide ?P] => destruct (decide P); try congruence end;
    simpl length; lia.
Qed.

(** C10.  On every pip-audit input the summary of the pip adapter has, for
    each severity level, a count equal to the number of listed findings of
    that level, and the five counts add up to [totalVulnerabilities]. *)
Theorem normalizePipAuditToSummary_counts_agree (audit : PipAuditJson) :
  let summary := normalizePipAuditToSummary audit in
  (forall s, getCount (AuditSummary.counts summary) s
             = listed s (AuditSummary.vulnerabilities summary))
  /\ sumCounts (AuditSummary.counts summary) = AuditSummary.totalVulnerabilities summary.
Proof.
  simpl. unfold normalizePipAuditToSummary.
  pose proof (pip_accum_agree (pipDeps audit)) as H.
  destruct (fold_left pipDepStep (pipDeps audit) (Counts.zero, [])) as [c l].
  unfold countsAgree in H. simpl in H.
  split; [exact H|].
  simpl. unfold sumCounts. rewrite <- (listed_total l).
  rewrite <- (H critical), <- (H high), <- (H moderate), <- (H low), <- (H info).
  reflexivity.
Qed.

(** ** The invariant of both adapters *)

Lemma summaryOf_invariant (acc : Accum) : summaryInvariant (summaryOf acc).
Proof.
  split; [reflexivity|]. simpl.
  rewrite orb_true_iff, !Z.ltb_lt. reflexivity.
Qed.

Lemma emptySummary_invariant : summaryInvariant emptySummary.
Proof. split; [reflexivity|]. simpl. split; [discriminate|lia]. Qed.

Lemma normalizeNpmAudit_invariant (audit : option NpmAuditJson) :
  summaryInvariant (normalizeNpmAudit audit).
Proof.
  unfold normalizeNpmAudit.
  destruct audit as [report|]; [|apply emptySummary_invariant].
  destruct (NpmAuditJson.vulnerabilities report);
    [apply summaryOf_invariant|apply emptySummary_invariant].
Qed.

(** C2.  Every summary either adapter produces, through [getAuditSummary] on
    a node project or through [normalizePipAuditToSummary], has
    [totalVulnerabilities] equal to the length of its list and
    [hasCriticalOrHigh] true exactly when a critical or high count is
    positive. *)
Theorem adapters_keep_summaryInvariant :
  (forall audit, summaryInvariant (normalizePipAuditToSummary audit))
  /\ (forall w summary,
        detectProjectType w = Some node ->
        getAuditSummary w = Ok summary ->
        summaryInvariant summary).
Proof.
  split.
  - intros audit. apply summaryOf_invariant.
  - intros w summary Hnode Hget. unfold getAuditSummary in Hget.
    rewrite Hnode in Hget. injection Hget as <-.
    apply normalizeNpmAudit_invariant.
Qed.

Lemma adapters_keep_summaryInvariant_witness :
  detectProjectType scenarioWorld = Some node
  /\ getAuditSummary scenarioWorld = Ok (normalizeNpmAudit (Some scenarioReport))
  /\ summaryInvariant (normalizeNpmAudit (Some scenarioReport)).
Proof.
  split; [reflexivity|]. split; [reflexivity|].
  apply (proj2 adapters_keep_summaryInvariant scenarioWorld); reflexivity.
Defined.

(** The end-to-end scenario of the specification: the counts are those of the
    metadata block although one finding is enumerated, and the verdict quotes
    them. *)
Example scenario_end_to_end :
  getAuditSummary scenarioWorld
  = Ok (AuditSummary.mk (Counts.mk 1 2 3 1 0) 1 true
          [Vulnerability.mk "lodash" high (Some "lodash: Prototype Pollution") None None
             (FixVersion "4.17.21") (Some ["lodash: Prototype Pollution"]) None
             (Some "lodash: lodash: Prototype Pollution")])
  /\ getShipReadiness scenarioWorld
     = Ok (ShipReadiness.mk false
             "There are 1 critical and 2 high severity vulnerabilities. Do not ship until these are addressed."
             1 2 3 1 (Some recommendUpgradeAndRecheck)).
Proof. split; reflexivity. Qed.

(** ** A failed scan *)

(** On the python path a scan that gave nothing parsable is an error. *)
Lemma getAuditSummary_python_failure (w : World) :
  detectProjectType w = Some python ->
  runPipAudit w = None ->
  getAuditSummary w = Throw pipAuditFailed.
Proof. intros Ht Hrun. unfold getAuditSummary. rewrite Ht, Hrun. reflexivity. Qed.

(** On the node path the same situation gives the summary of a clean project. *)
Lemma getAuditSummary_node_failure (w : World) :
  detectProjectType w = Some node ->
  runAudit w = None ->
  getAuditSummary w = Ok emptySummary.
Proof. intros Ht Hrun. unfold getAuditSummary. rewrite Ht, Hrun. reflexivity. Qed.

(** [runAudit] gives [null] whenever no output of [npm audit] parses. *)
Lemma runAudit_unparsable (w : World) :
  (forall out, World.parseNpm w out = None) -> runAudit w = None.
Proof.
  intros Hparse. unfold runAudit.
  destruct (World.package_json w); [|reflexivity]. simpl.
  destruct (World.npm_audit w) as [out|[raw|]]; [apply Hparse| |reflexivity].
  destruct (truthy raw); [apply Hparse|reflexivity].
Qed.

(** C1.  The behaviour of the code where the claim fails: a project with a
    [package.json] whose [npm audit] output does not parse is reported with
    the all-zero summary and judged safe to ship, while a python project in
    the same situation raises the audit-failed error. *)
Theorem getAuditSummary_node_unparsable_gives_empty_summary :
  detectProjectType brokenNpmWorld = Some node
  /\ runAudit brokenNpmWorld = None
  /\ getAuditSummary brokenNpmWorld = Ok emptySummary
  /\ ShipReadiness.safeToShip (shipReadinessOf emptySummary) = true
  /\ ShipReadiness.reason (shipReadinessOf emptySummary) = reasonNoVulnerabilities
  /\ getAuditSummary brokenPipWorld = Throw pipAuditFailed.
Proof. repeat split. Qed.

(** ** Severity fallback of the two adapters *)

Lemma severityOfString_name (s : SeverityLevel) : severityOfString (severityName s) = Some s.
Proof. destruct s; reflexivity. Qed.

Lemma severityOfString_Some (raw : string) (s : SeverityLevel) :
  severityOfString raw = Some s -> raw = severityName s.
Proof.
  unfold severityOfString.
  repeat match goal with
         | |- context [String.eqb raw ?k] =>
             destruct (String.eqb_spec raw k) as [->|_]
         end; intros H; inversion H; reflexivity.
Qed.

(** Adapter A: a finding without a severity is listed as moderate. *)
Lemma npmStep_absent_severity (l : list Vulnerability) (name : string) (v : NpmAuditVuln) :
  NpmAuditVuln.severity v = None ->
  npmStep l (name, v) = l ++ [npmVulnerability name v moderate].
Proof. intros H. unfold npmStep. simpl. rewrite H. reflexivity. Qed.

(** Adapter A: a finding of a recognised severity is listed with it. *)
Lemma npmStep_recognised (l : list Vulnerability) (name : string) (v : NpmAuditVuln)
    (s : SeverityLevel) :
  NpmAuditVuln.severity v = Some (severityName s) ->
  npmStep l (name, v) = l ++ [npmVulnerability name v s].
Proof.
  intros H. unfold npmStep. simpl. rewrite H. simpl.
  rewrite severityOfString_name. reflexivity.
Qed.

(** Adapter A: a finding whose severity is none of the five names is dropped. *)
Lemma npmStep_unknown_severity (l : list Vulnerability) (name raw : string)
    (v : NpmAuditVuln) :
  NpmAuditVuln.severity v = Some raw ->
  (forall s, raw <> severityName s) ->
  npmStep l (name, v) = l.
Proof.
  intros H Hraw. unfold npmStep. simpl. rewrite H. simpl.
  destruct (severityOfString raw) as [s|] eqn:E; [|reflexivity].
  apply severityOfString_Some in E. destruct (Hraw s E).
Qed.

Lemma getCount_setCount (c : Counts) (s s' : SeverityLevel) (n : Z) :
  getCount (setCount c s n) s' = if decide (s' = s) then n else getCount c s'.
Proof. destruct s, s'; reflexivity. Qed.

Lemma getCount_countsFromMeta (meta : NpmMetaCounts) (s : SeverityLevel) :
  getCount (countsFromMeta meta) s = nullish (metaCount meta s) 0.
Proof. destruct s; reflexivity. Qed.

(** Adapter A: whatever is enumerated, the counts are those of the metadata
    block, and zero for a level the block does not mention. *)
Lemma normalizeNpmAudit_counts (report : NpmAuditJson)
    (entries : list (string * NpmAuditVuln)) (s : SeverityLevel) :
  NpmAuditJson.vulnerabilities report = Some entries ->
  getCount (AuditSummary.counts (normalizeNpmAudit (Some report))) s
  = nullish (metaCount (auditMeta report) s) 0.
Proof.
  intros H. unfold normalizeNpmAudit. rewrite H. simpl.
  apply getCount_countsFromMeta.
Qed.

(** Adapter B: a finding whose severity is missing, empty, or a name that
    [severityMap] does not answer to is counted and listed as high. *)
Lemma pipStep_fallback_high (dep : PipAuditDep) (acc : Accum) (v : PipAuditVuln) :
  match PipAuditVuln.known_severity v with
  | Some raw => toLowerCase raw = "" \/ severityMap (toLowerCase raw) = None
  | None => True
  end ->
  pipStep dep acc v = (increment acc.1 high, acc.2 ++ [pipVulnerability dep v high]).
Proof.
  unfold pipStep, pipSeverity.
  destruct (PipAuditVuln.known_severity v) as [raw|]; simpl; [|reflexivity].
  intros [E|E]; rewrite E; [reflexivity|].
  destruct (truthy (toLowerCase raw)); reflexivity.
Qed.

(** Adapter B: [medium], in any letter case, is counted and listed as moderate. *)
Lemma pipStep_medium (dep : PipAuditDep) (acc : Accum) (v : PipAuditVuln) (raw : string) :
  PipAuditVuln.known_severity v = Some raw ->
  toLowerCase raw = "medium" ->
  pipStep dep acc v = (increment acc.1 moderate, acc.2 ++ [pipVulnerability dep v moderate]).
Proof.
  intros H E. unfold pipStep, pipSeverity. rewrite H. simpl. rewrite E. reflexivity.
Qed.

(** Adapter B: a severity that names a member [severityMap] inherits is
    neither counted nor listed. *)
Lemma pipStep_inherited (dep : PipAuditDep) (acc : Accum) (v : PipAuditVuln) (raw : string) :
  PipAuditVuln.known_severity v = Some raw ->
  severityMap (toLowerCase raw) = Some Inherited ->
  pipStep dep acc v = acc.
Proof.
  intros H E. unfold pipStep, pipSeverity. rewrite H. simpl. rewrite E.
  destruct (truthy (toLowerCase raw)) eqn:T; [reflexivity|].
  unfold truthy in T. apply negb_false_iff, String.eqb_eq in T.
  rewrite T in E. discriminate E.
Qed.

(** C3.  The behaviour of the code where the claim fails: pip-audit output
    whose only finding has the unrecognised severity [constructor] is
    normalised to the empty summary; the finding is neither counted nor
    listed as high. *)
Theorem normalizePipAuditToSummary_drops_inherited_key :
  pipSeverity (Some "constructor") = Inherited
  /\ normalizePipAuditToSummary inheritedKeyAudit = emptySummary
  /\ getCount (AuditSummary.counts (normalizePipAuditToSummary inheritedKeyAudit)) high = 0
  /\ AuditSummary.vulnerabilities (normalizePipAuditToSummary inheritedKeyAudit) = [].
Proof. repeat split. Qed.

(** ** Ship readiness *)

(** A printed integer starts with a digit or a minus sign. *)
Lemma showZ_head (z : Z) :
  exists c rest, showZ z = String c rest /\ (is_digit c = true \/ c = "-"%char).
Proof.
  unfold showZ. destruct (Z.to_int z) as [d|d]; simpl.
  - destruct d; simpl; eexists _, _; (split; [reflexivity|left; reflexivity]).
  - eexists _, _. split; [reflexivity|right; reflexivity].
Qed.

Lemma append_cons (c : ascii) (s t : string) : String c s +:+ t = String c (s +:+ t).
Proof. reflexivity. Qed.

Lemma append_nil (t : string) : "" +:+ t = t.
Proof. reflexivity. Qed.

Lemma showZ_not_n (z : Z) (rest tail : string) :
  showZ z +:+ rest <> String "n" tail.
Proof.
  destruct (showZ_head z) as (c & r & -> & [D| ->]); rewrite append_cons; intros E;
    inversion E; subst; discriminate D.
Qed.

(** The three reason templates never produce the same text. *)
Lemma reasons_distinct (moderate low critical high : Z) :
  reasonNoVulnerabilities <> reasonNoBlocking moderate low
  /\ reasonNoVulnerabilities <> reasonBlocking critical high
  /\ reasonNoBlocking moderate low <> reasonBlocking critical high.
Proof.
  repeat split; try discriminate.
  unfold reasonNoBlocking, reasonBlocking. intros E.
  rewrite !append_cons, !append_nil in E.
  repeat match type of E with String ?a _ = String ?a _ => injection E as E end.
  symmetry in E. exact (showZ_not_n _ _ _ E).
Qed.






(** ** Sorting by a score, highest first *)

Section SortByScore.
Context {A : Type} (score : A -> Z).

Lemma insertBy_perm (x : A) (l : list A) : insertBy (byScoreDesc score) x l ≡ₚ x :: l.
Proof.
  induction l as [|y l IH]; simpl; [reflexivity|].
  destruct (0 <? byScoreDesc score x y); [|reflexivity].
  rewrite IH. apply Permutation_swap.
Qed.

Lemma sortBy_perm (l : list A) : sortBy (byScoreDesc score) l ≡ₚ l.
Proof.
  induction l as [|x l IH]; simpl; [reflexivity|].
  rewrite insertBy_perm, IH. reflexivity.
Qed.

Lemma insertBy_descending (x : A) (l : list A) :
  descending score l -> descending score (insertBy (byScoreDesc score) x l).
Proof.
  unfold descending. induction l as [|y l IH]; intros Hl; simpl.
  - repeat constructor.
  - apply StronglySorted_inv in Hl as [Hl Hy].
    destruct (Z.ltb_spec 0 (byScoreDesc score x y)) as [Hlt|Hge];
      [unfold byScoreDesc in Hlt|unfold byScoreDesc in Hge].
    + constructor; [apply IH, Hl|].
      rewrite insertBy_perm. constructor; [lia|exact Hy].
    + constructor; [constructor; assumption|].
      constructor; [lia|].
      eapply Forall_impl; [exact Hy|]. simpl. intros z Hz. lia.
Qed.

Lemma sortBy_descending (l : list A) : descending score (sortBy (byScoreDesc score) l).
Proof.
  induction l as [|x l IH]; simpl; [constructor|].
  apply insertBy_descending, IH.
Qed.

Lemma withScore_cons (z : Z) (x : A) (l : list A) :
  withScore score z (x :: l)
  = if decide (score x = z) then x :: withScore score z l else withScore score z l.
Proof. unfold withScore. rewrite filter_cons. reflexivity. Qed.

(** Insertion keeps the order among the entries of any one score. *)
Lemma insertBy_stable (z : Z) (x : A) (l : list A) :
  withScore score z (insertBy (byScoreDesc score) x l) = withScore score z (x :: l).
Proof.
  induction l as [|y l IH]; simpl; [reflexivity|].
  destruct (Z.ltb_spec 0 (byScoreDesc score x y)) as [Hlt|Hge]; [|reflexivity].
  unfold byScoreDesc in Hlt.
  rewrite (withScore_cons z y), IH, !withScore_cons.
  destruct (decide (score y = z)), (decide (score x = z)); try reflexivity. lia.
Qed.

Lemma sortBy_stable (z : Z) (l : list A) :
  withScore score z (sortBy (byScoreDesc score) l) = withScore score z l.
Proof.
  induction l as [|x l IH]; simpl; [reflexivity|].
  rewrite insertBy_stable, !withScore_cons, IH. reflexivity.
Qed.

(** A list already in non-increasing order is left as it is. *)
Lemma sortBy_descending_id (l : list A) : descending score l -> sortBy (byScoreDesc score) l = l.
Proof.
  unfold descending. induction l as [|x l IH]; intros Hl; simpl; [reflexivity|].
  apply StronglySorted_inv in Hl as [Hl Hx].
  rewrite (IH Hl). destruct l as [|y l]; simpl; [reflexivity|].
  apply Forall_inv in Hx.
  destruct (Z.ltb_spec 0 (byScoreDesc score x y)) as [Hlt|Hge]; [unfold byScoreDesc in Hlt; lia|reflexivity].
Qed.

Lemma sortBy_idempotent (l : list A) : sortBy (byScoreDesc score) (sortBy (byScoreDesc score) l) = sortBy (byScoreDesc score) l.
Proof. apply sortBy_descending_id, sortBy_descending. Qed.

Lemma withScore_elem (z : Z) (x : A) (l : list A) :
  x ∈ withScore score z l -> x ∈ l /\ score x = z.
Proof. unfold withScore. rewrite list_elem_of_filter. tauto. Qed.

(** Two lists in non-increasing order that hold the same entries of each
    score, in the same order, are the same list: the result of a stable
    sort does not depend on the algorithm. *)
Lemma descending_stable_unique (l1 l2 : list A) :
  descending score l1 -> descending score l2 ->
  (forall z, withScore score z l1 = withScore score z l2) ->
  l1 = l2.
Proof.
  unfold descending. revert l2.
  induction l1 as [|x l1 IH]; intros l2 H1 H2 Hsame.
  - destruct l2 as [|y l2]; [reflexivity|].
    specialize (Hsame (score y)). rewrite withScore_cons in Hsame.
    destruct (decide (score y = score y)); [discriminate Hsame|congruence].
  - destruct l2 as [|y l2].
    { specialize (Hsame (score x)). rewrite withScore_cons in Hsame.
      destruct (decide (score x = score x)); [discriminate Hsame|congruence]. }
    apply StronglySorted_inv in H1 as [H1 Hx].
    apply StronglySorted_inv in H2 as [H2 Hy].
    rewrite Forall_forall in Hx, Hy.
    assert (score x = score y) as Exy.
    { destruct (decide (score x = score y)) as [E|N]; [exact E|exfalso].
      pose proof (Hsame (score x)) as Sx. pose proof (Hsame (score y)) as Sy.
      rewrite !withScore_cons in Sx, Sy.
      destruct (decide (score x = score x)); [|congruence].
      destruct (decide (score y = score y)); [|congruence].
      destruct (decide (score y = score x)); [congruence|].
      destruct (decide (score x = score y)); [congruence|].
      assert (x ∈ l2) as Hxin.
      { apply (withScore_elem (score x)). rewrite <- Sx. left. }
      assert (y ∈ l1) as Hyin.
      { apply (withScore_elem (score y)). rewrite Sy. left. }
      apply Hy in Hxin. apply Hx in Hyin. lia. }
    assert (x = y) as ->.
    { specialize (Hsame (score x)). rewrite !withScore_cons in Hsame.
      destruct (decide (score x = score x)); [|congruence].
      destruct (decide (score y = score x)); [|congruence].
      congruence. }
    f_equal. apply IH; [exact H1|exact H2|].
    intros z. specialize (Hsame z). rewrite !withScore_cons in Hsame.
    destruct (decide (score y = z)); congruence.
Qed.

(** Every stable sort by this comparator returns what [sortBy] returns. *)
Lemma sortBy_unique (l sorted : list A) :
  descending score sorted ->
  (forall z, withScore score z sorted = withScore score z l) ->
  sorted = sortBy (byScoreDesc score) l.
Proof.
  intros Hd Hs. apply descending_stable_unique; [exact Hd|apply sortBy_descending|].
  intros z. rewrite sortBy_stable. apply Hs.
Qed.
End SortByScore.

(** ** Highest-risk selection *)

Lemma bySeverityDesc_score (l : list Vulnerability) :
  sortBy bySeverityDesc l = sortBy (byScoreDesc vulnerabilityScore) l.
Proof. reflexivity. Qed.

Lemma head_None_perm {A : Type} (l l' : list A) : l' ≡ₚ l -> (head l' = None <-> l = []).
Proof.
  intros Hp. split.
  - intros Hh. destruct l' as [|x l']; [|discriminate Hh].
    symmetry in Hp. apply Permutation_nil_r in Hp. exact Hp.
  - intros ->. apply Permutation_nil_r in Hp. rewrite Hp. reflexivity.
Qed.

(** C8.  [getHighestRiskDependency] orders the findings by severity score
    (100, 80, 50, 20, 5), highest first, keeping the input order among
    findings of equal score; [highest] is the first of that order and is
    [null] exactly for an empty list; and running the selection again on the
    ordered list gives the same [highest] and the same order. *)
Theorem highestRisk_stable_descending_idempotent (summary : AuditSummary) :
  let findings := AuditSummary.vulnerabilities summary in
  let result := highestRiskOf summary in
  let sorted := HighestRisk.allBySeverity result in
  let again :=
    highestRiskOf
      (AuditSummary.mk (AuditSummary.counts summary)
         (AuditSummary.totalVulnerabilities summary)
         (AuditSummary.hasCriticalOrHigh summary) sorted) in
  (SEVERITY_SCORE critical = 100 /\ SEVERITY_SCORE high = 80
   /\ SEVERITY_SCORE moderate = 50 /\ SEVERITY_SCORE low = 20 /\ SEVERITY_SCORE info = 5)
  /\ sorted ≡ₚ findings
  /\ descending vulnerabilityScore sorted
  /\ (forall z, withScore vulnerabilityScore z sorted = withScore vulnerabilityScore z findings)
  /\ HighestRisk.highest result = head sorted
  /\ (HighestRisk.highest result = None <-> findings = [])
  /\ HighestRisk.highest again = HighestRisk.highest result
  /\ HighestRisk.allBySeverity again = sorted.
Proof.
  intros findings result sorted again.
  subst again sorted result findings. unfold highestRiskOf. simpl.
  change bySeverityDesc with (byScoreDesc vulnerabilityScore).
  split; [repeat split|].
  split; [apply sortBy_perm|].
  split; [apply sortBy_descending|].
  split; [intros z; apply sortBy_stable|].
  split; [reflexivity|].
  split; [apply head_None_perm, sortBy_perm|].
  rewrite !sortBy_idempotent. split; reflexivity.
Qed.

(** ** Upgrade suggestions *)

Lemma firstWithFix_snoc (processed : list Vulnerability) (v w : Vulnerability) :
  firstWithFix processed v -> firstWithFix (processed ++ [w]) v.
Proof.
  intros (before & after & -> & Hfix & Hfirst).
  exists before, (after ++ [w]). rewrite <- app_assoc. simpl. auto.
Qed.

Lemma suggestStep_invariant (isPip : bool) (processed : list Vulnerability)
    (acc : list UpgradeSuggestion * gset string) (v : Vulnerability) :
  suggestInvariant isPip processed acc ->
  suggestInvariant isPip (processed ++ [v]) (suggestStep isPip acc v).
Proof.
  destruct acc as [sugs seen]. intros (Hseen & Hnodup & Horigin & Hcover).
  simpl in Hseen, Hnodup, Horigin, Hcover.
  unfold suggestStep. simpl.
  destruct (hasFix (Vulnerability.fixAvailable v)) eqn:Hfix; simpl.
  - destruct (bool_decide_reflect (Vulnerability.name v ∈ seen)) as [Hin|Hnotin].
    + repeat split; simpl; try (apply Hseen); try exact Hnodup.
      * intros sug Hsug. destruct (Horigin sug Hsug) as (u & Hu & ->).
        exists u. split; [apply firstWithFix_snoc, Hu|reflexivity].
      * intros u Hu Hufix. apply elem_of_app in Hu as [Hu|Hu]; [auto|].
        apply list_elem_of_singleton in Hu. subst u. exact Hin.
    + repeat split; simpl.
      * rewrite map_app, elem_of_app, elem_of_union, elem_of_singleton. simpl.
        rewrite list_elem_of_singleton. intros [->|Hn]; [right; reflexivity|].
        left. apply Hseen, Hn.
      * rewrite map_app, elem_of_app, elem_of_union, elem_of_singleton. simpl.
        rewrite list_elem_of_singleton. intros [Hn| ->]; [|left; reflexivity].
        right. apply Hseen, Hn.
      * rewrite map_app. simpl. apply NoDup_app. split; [exact Hnodup|].
        split; [|apply NoDup_singleton].
        intros n Hn Hv. apply list_elem_of_singleton in Hv. subst n.
        apply Hnotin, Hseen, Hn.
      * intros sug Hsug. apply elem_of_app in Hsug as [Hsug|Hsug].
        -- destruct (Horigin sug Hsug) as (u & Hu & ->).
           exists u. split; [apply firstWithFix_snoc, Hu|reflexivity].
        -- apply list_elem_of_singleton in Hsug. subst sug.
           exists v. split; [|reflexivity].
           exists processed, []. split; [reflexivity|]. split; [exact Hfix|].
           intros u Hu Hname.
           destruct (hasFix (Vulnerability.fixAvailable u)) eqn:Hufix; [|reflexivity].
           exfalso. apply Hnotin. rewrite <- Hname. apply Hcover; assumption.
      * intros u Hu Hufix. apply elem_of_union.
        apply elem_of_app in Hu as [Hu|Hu]; [right; auto|].
        apply list_elem_of_singleton in Hu. subst u. left. apply elem_of_singleton. reflexivity.
  - repeat split; simpl; try (apply Hseen); try exact Hnodup.
    + intros sug Hsug. destruct (Horigin sug Hsug) as (u & Hu & ->).
      exists u. split; [apply firstWithFix_snoc, Hu|reflexivity].
    + intros u Hu Hufix. apply elem_of_app in Hu as [Hu|Hu]; [auto|].
      apply list_elem_of_singleton in Hu. subst u. congruence.
Qed.

Lemma suggest_fold_invariant (isPip : bool) (rest processed : list Vulnerability)
    (acc : list UpgradeSuggestion * gset string) :
  suggestInvariant isPip processed acc ->
  suggestInvariant isPip (processed ++ rest) (fold_left (suggestStep isPip) rest acc).
Proof.
  revert processed acc.
  induction rest as [|v rest IH]; intros processed acc Hinv; simpl.
  - rewrite app_nil_r. exact Hinv.
  - replace (processed ++ v :: rest) with ((processed ++ [v]) ++ rest)
      by (rewrite <- app_assoc; reflexivity).
    apply IH, suggestStep_invariant, Hinv.
Qed.

Lemma collectSuggestions_invariant (isPip : bool) (findings : list Vulnerability) :
  suggestInvariant isPip findings (fold_left (suggestStep isPip) findings ([], ∅)).
Proof.
  apply (suggest_fold_invariant isPip findings [] ([], ∅)).
  repeat split; simpl.
  - intros Hn. apply elem_of_empty in Hn. destruct Hn.
  - intros Hn. apply elem_of_nil in Hn. destruct Hn.
  - apply NoDup_nil_2.
  - intros sug Hsug. apply elem_of_nil in Hsug. destruct Hsug.
  - intros v Hv. apply elem_of_nil in Hv. destruct Hv.
Qed.

(** A finding without a fix leaves the loop state as it is. *)
Lemma suggestStep_skip (isPip : bool) (acc : list UpgradeSuggestion * gset string)
    (v : Vulnerability) :
  hasFix (Vulnerability.fixAvailable v) = false -> suggestStep isPip acc v = acc.
Proof. intros H. unfold suggestStep. rewrite H. reflexivity. Qed.

Lemma collectSuggestions_skip (isPip : bool) (before after : list Vulnerability)
    (v : Vulnerability) :
  hasFix (Vulnerability.fixAvailable v) = false ->
  collectSuggestions isPip (before ++ v :: after) = collectSuggestions isPip (before ++ after).
Proof.
  intros H. unfold collectSuggestions. rewrite !fold_left_app. simpl.
  rewrite (suggestStep_skip _ _ _ H). reflexivity.
Qed.

Lemma suggestion_target (isPip : bool) (v : Vulnerability) :
  hasFix (Vulnerability.fixAvailable v) = true ->
  (exists version, Vulnerability.fixAvailable v = FixVersion version
                   /\ UpgradeSuggestion.target (suggestionFor isPip v) = version)
  \/ (Vulnerability.fixAvailable v = FixFlag true
      /\ UpgradeSuggestion.target (suggestionFor isPip v) = "latest").
Proof.
  unfold suggestionFor. simpl.
  destruct (Vulnerability.fixAvailable v) as [|[|]|version]; simpl; intros H;
    try discriminate H.
  - right. split; reflexivity.
  - left. exists version. split; reflexivity.
Qed.

(** C7.  The upgrade suggestions hold at most one entry per package name;
    each entry is built from the first finding of its package that has a fix,
    with the fix version as target, or [latest] when the fix is the flag
    [true]; every package with a fixable finding has an entry; a finding
    whose fix is absent or [false] changes nothing; and the list is in
    non-increasing order of severity score. *)
Theorem upgradeSuggestions_one_per_package_sorted (isPip : bool) (audit : AuditSummary) :
  let findings := AuditSummary.vulnerabilities audit in
  let suggestions := upgradeSuggestionsOf isPip audit in
  NoDup (map UpgradeSuggestion.package suggestions)
  /\ (forall sug, sug ∈ suggestions ->
        exists v,
          firstWithFix findings v
          /\ sug = suggestionFor isPip v
          /\ UpgradeSuggestion.package sug = Vulnerability.name v
          /\ ((exists version, Vulnerability.fixAvailable v = FixVersion version
                               /\ UpgradeSuggestion.target sug = version)
              \/ (Vulnerability.fixAvailable v = FixFlag true
                  /\ UpgradeSuggestion.target sug = "latest")))
  /\ (forall v, v ∈ findings -> hasFix (Vulnerability.fixAvailable v) = true ->
        exists sug, sug ∈ suggestions
                    /\ UpgradeSuggestion.package sug = Vulnerability.name v)
  /\ (forall before v after,
        findings = before ++ v :: after ->
        Vulnerability.fixAvailable v = FixAbsent
        \/ Vulnerability.fixAvailable v = FixFlag false ->
        suggestions
        = upgradeSuggestionsOf isPip
            (AuditSummary.mk (AuditSummary.counts audit)
               (AuditSummary.totalVulnerabilities audit)
               (AuditSummary.hasCriticalOrHigh audit) (before ++ after)))
  /\ descending suggestionScore suggestions.
Proof.
  intros findings suggestions. subst suggestions. unfold upgradeSuggestionsOf.
  fold findings.
  change bySuggestionSeverityDesc with (byScoreDesc suggestionScore).
  pose proof (sortBy_perm suggestionScore (collectSuggestions isPip findings)) as Hperm.
  destruct (collectSuggestions_invariant isPip findings)
    as (Hseen & Hnodup & Horigin & Hcover).
  fold (collectSuggestions isPip findings) in Hseen, Hnodup, Horigin.
  split; [|split; [|split; [|split]]].
  - rewrite Hperm. exact Hnodup.
  - intros sug Hsug. rewrite Hperm in Hsug.
    destruct (Horigin sug Hsug) as (v & Hv & ->).
    exists v. split; [exact Hv|]. split; [reflexivity|]. split; [reflexivity|].
    apply suggestion_target. destruct Hv as (? & ? & _ & Hfix & _). exact Hfix.
  - intros v Hv Hfix. pose proof (Hcover v Hv Hfix) as Hin.
    apply Hseen in Hin. apply list_elem_of_fmap in Hin as (sug & Hname & Hsug).
    exists sug. split; [rewrite Hperm; exact Hsug|symmetry; exact Hname].
  - intros before v after Hsplit Hnofix. simpl. rewrite Hsplit.
    rewrite collectSuggestions_skip; [reflexivity|].
    destruct Hnofix as [-> | ->]; reflexivity.
  - apply sortBy_descending.
Qed.

(** ** The diff key *)

Lemma contains_app_cons (c : ascii) (x y : string) : contains c (x +:+ String c y) = true.
Proof.
  induction x as [|d x IH].
  - rewrite append_nil. simpl. rewrite Ascii.eqb_refl. reflexivity.
  - rewrite append_cons. simpl. rewrite IH. apply orb_true_r.
Qed.

(** A key splits at its last colon. *)
Lemma key_split (a b s t : string) :
  contains ":" s = false -> contains ":" t = false ->
  a +:+ ":" +:+ s = b +:+ ":" +:+ t -> a = b /\ s = t.
Proof.
  intros Hs Ht. revert b.
  induction a as [|c a IH]; intros [|d b]; rewrite ?append_cons, ?append_nil; intros E.
  - injection E as ->. split; reflexivity.
  - injection E as <- ->. rewrite contains_app_cons in Hs. discriminate Hs.
  - injection E as -> <-. rewrite contains_app_cons in Ht. discriminate Ht.
  - injection E as -> E. destruct (IH b E) as [-> ->]. split; reflexivity.
Qed.

Lemma severityName_no_colon (s : SeverityLevel) : contains ":" (severityName s) = false.
Proof. destruct s; reflexivity. Qed.

Lemma severityName_inj (s t : SeverityLevel) : severityName s = severityName t -> s = t.
Proof. destruct s, t; intros E; try reflexivity; discriminate E. Qed.

(** Two findings have the same key exactly when they have the same package
    name and the same severity. *)
Lemma vulnKey_pairKey (u v : Vulnerability) : vulnKey u = vulnKey v <-> pairKey u = pairKey v.
Proof.
  unfold vulnKey, pairKey. split.
  - intros E. apply key_split in E as [En Es]; try apply severityName_no_colon.
    apply severityName_inj in Es. congruence.
  - intros E. injection E as -> ->. reflexivity.
Qed.

Lemma vulnKey_elem (v : Vulnerability) (l : list Vulnerability) :
  vulnKey v ∈ (list_to_set (map vulnKey l) : gset string) <-> pairKey v ∈ map pairKey l.
Proof.
  rewrite elem_of_list_to_set, !list_elem_of_fmap.
  split; intros (u & E & Hu); exists u; (split; [|exact Hu]); apply vulnKey_pairKey, E.
Qed.

(** [diffVulnerabilities] computes the two-way difference on pairs. *)
Lemma diffVulnerabilities_diffByPair (baseline current : list Vulnerability) :
  diffVulnerabilities baseline current = diffByPair baseline current.
Proof.
  unfold diffVulnerabilities, diffByPair.
  f_equal; apply list_filter_iff; intros v; rewrite vulnKey_elem; reflexivity.
Qed.

Lemma filter_none {A : Type} (P : A -> Prop) `{forall x, Decision (P x)} (l : list A) :
  (forall x, x ∈ l -> ~ P x) -> filter P l = [].
Proof.
  induction l as [|x l IH]; intros Hl; [reflexivity|].
  rewrite filter_cons. destruct (decide (P x)) as [Hp|_].
  - destruct (Hl x); [left|exact Hp].
  - apply IH. intros y Hy. apply Hl. right. exact Hy.
Qed.

(** A list compared with itself has nothing fixed and nothing introduced. *)
Lemma diffByPair_same (l : list Vulnerability) : diffByPair l l = ([], []).
Proof.
  unfold diffByPair.
  rewrite filter_none; [reflexivity|].
  intros v Hv Hnot. apply Hnot, list_elem_of_fmap. exists v. split; [reflexivity|exact Hv].
Qed.

Lemma diffVulnerabilities_same (l : list Vulnerability) : diffVulnerabilities l l = ([], []).
Proof. rewrite diffVulnerabilities_diffByPair. apply diffByPair_same. Qed.

(** ** The bounded history *)

Lemma sliceLast_length {A : Type} (n : nat) (l : list A) :
  (length (sliceLast n l) <= n)%nat.
Proof. unfold sliceLast. rewrite length_drop. lia. Qed.

Lemma sliceLast_short {A : Type} (n : nat) (l : list A) :
  (length l <= n)%nat -> sliceLast n l = l.
Proof.
  intros H. unfold sliceLast. replace (length l - n)%nat with 0%nat by lia. reflexivity.
Qed.

Lemma sliceLast_app_sliceLast {A : Type} (n : nat) (l l' : list A) :
  sliceLast n (sliceLast n l ++ l') = sliceLast n (l ++ l').
Proof.
  destruct (Nat.le_gt_cases (length l) n) as [Hle|Hgt].
  - rewrite (sliceLast_short n l Hle). reflexivity.
  - unfold sliceLast. rewrite !length_app, length_drop.
    replace (length l - (length l - n) + length l' - n)%nat with (length l')%nat by lia.
    replace (length l + length l' - n)%nat with ((length l - n) + length l')%nat by lia.
    rewrite <- drop_drop. rewrite (drop_app_le l l' (length l - n)) by lia.
    reflexivity.
Qed.

Lemma sliceLast_snoc_last {A : Type} (n : nat) (l : list A) (x : A) :
  last (sliceLast (S n) (l ++ [x])) = Some x.
Proof.
  unfold sliceLast. rewrite length_app. simpl.
  rewrite drop_app_le by lia. apply last_snoc.
Qed.

(** ** compareScansOverTime *)

Lemma compareScansOverTime_store (store : ScanStore) (clock : Clock) (repoId : string)
    (currentSummary : AuditSummary) (options : ScanOptions) :
  (compareScansOverTime store clock repoId currentSummary options).2
  = <[repoId := sliceLast MAX_SCANS_PER_REPO
                  (historyOf store repoId
                   ++ [makeScan clock repoId currentSummary options])]> store.
Proof.
  unfold compareScansOverTime, historyOf.
  destruct (last (nullish (store !! repoId) [])); [|reflexivity].
  destruct (diffVulnerabilities _ _). reflexivity.
Qed.

Lemma compareScansOverTime_first (store : ScanStore) (clock : Clock) (repoId : string)
    (currentSummary : AuditSummary) (options : ScanOptions) :
  last (historyOf store repoId) = None ->
  (compareScansOverTime store clock repoId currentSummary options).1
  = let currentSnapshot :=
      Snapshot.mk (Clock.isoString clock) (AuditSummary.counts currentSummary)
        (AuditSummary.totalVulnerabilities currentSummary) in
    CompareScansResult.mk repoId currentSnapshot currentSnapshot [] []
      (firstScanText repoId currentSummary) (Some true).
Proof.
  unfold compareScansOverTime, historyOf. intros ->. reflexivity.
Qed.

Lemma compareScansOverTime_next (store : ScanStore) (clock : Clock) (repoId : string)
    (currentSummary : AuditSummary) (options : ScanOptions) (previous : SavedScan) :
  last (historyOf store repoId) = Some previous ->
  (compareScansOverTime store clock repoId currentSummary options).1
  = let diff := diffByPair (AuditSummary.vulnerabilities (SavedScan.summary previous))
                  (AuditSummary.vulnerabilities currentSummary) in
    CompareScansResult.mk repoId (snapshotOf previous)
      (Snapshot.mk (Clock.isoString clock) (AuditSummary.counts currentSummary)
         (AuditSummary.totalVulnerabilities currentSummary))
      diff.1 diff.2
      (comparedText repoId previous (Clock.isoString clock) (length diff.1)
         (length diff.2) (totalDelta (SavedScan.summary previous) currentSummary))
      None.
Proof.
  unfold compareScansOverTime, historyOf. intros ->.
  rewrite diffVulnerabilities_diffByPair.
  destruct (diffByPair _ _). reflexivity.
Qed.

(** C5.  On a key without history the call reports a first scan: nothing
    fixed, nothing introduced, and the baseline is the current snapshot.  On a
    key with history it compares the last saved scan with the current one on
    (package name, severity) pairs alone.  A second call with the same
    summary therefore reports nothing fixed, nothing introduced and a total
    change of zero. *)
Theorem compareScansOverTime_first_then_diff (store : ScanStore) (clock : Clock)
    (repoId : string) (currentSummary : AuditSummary) (options : ScanOptions) :
  let outcome := compareScansOverTime store clock repoId currentSummary options in
  (store !! repoId = None ->
   CompareScansResult.isFirstScan outcome.1 = Some true
   /\ CompareScansResult.fixed outcome.1 = []
   /\ CompareScansResult.introduced outcome.1 = []
   /\ CompareScansResult.baseline outcome.1 = CompareScansResult.current outcome.1
   /\ CompareScansResult.current outcome.1
      = Snapshot.mk (Clock.isoString clock) (AuditSummary.counts currentSummary)
          (AuditSummary.totalVulnerabilities currentSummary))
  /\ (forall history previous,
        store !! repoId = Some history ->
        last history = Some previous ->
        CompareScansResult.isFirstScan outcome.1 = None
        /\ CompareScansResult.baseline outcome.1 = snapshotOf previous
        /\ (CompareScansResult.fixed outcome.1, CompareScansResult.introduced outcome.1)
           = diffByPair (AuditSummary.vulnerabilities (SavedScan.summary previous))
               (AuditSummary.vulnerabilities currentSummary))
  /\ (forall clock' options',
        let second :=
          (compareScansOverTime outcome.2 clock' repoId currentSummary options').1 in
        CompareScansResult.isFirstScan second = None
        /\ CompareScansResult.fixed second = []
        /\ CompareScansResult.introduced second = []
        /\ Snapshot.totalVulnerabilities (CompareScansResult.current second)
           - Snapshot.totalVulnerabilities (CompareScansResult.baseline second) = 0
        /\ CompareScansResult.summary second
           = "Compared **" +:+ repoId +:+ "**: baseline " +:+ Clock.isoString clock
             +:+ " → current " +:+ Clock.isoString clock'
             +:+ ". Total change: +0 vulnerability(ies).").
Proof.
  intros outcome. subst outcome. split; [|split].
  - intros Hnone. rewrite compareScansOverTime_first
      by (unfold historyOf; rewrite Hnone; reflexivity).
    repeat split.
  - intros history previous Hsome Hlast.
    rewrite (compareScansOverTime_next _ _ _ _ _ previous)
      by (unfold historyOf; rewrite Hsome; exact Hlast).
    simpl. repeat split.
  - intros clock' options'. simpl.
    rewrite (compareScansOverTime_next _ _ _ _ _
               (makeScan clock repoId currentSummary options)).
    + cbv zeta. change (SavedScan.summary (makeScan clock repoId currentSummary options))
        with currentSummary.
      rewrite diffByPair_same. unfold totalDelta. rewrite Z.sub_diag.
      repeat split. simpl. apply Z.sub_diag.
    + rewrite compareScansOverTime_store. unfold historyOf.
      rewrite lookup_insert_eq. simpl. apply sliceLast_snoc_last.
Qed.

(** ** History retention *)

Lemma historyOf_step (store : ScanStore) (c : Call) (k : string) :
  historyOf
    (compareScansOverTime store (Call.clock c) (Call.repoId c) (Call.summary c)
       (Call.options c)).2 k
  = if decide (Call.repoId c = k)
    then sliceLast MAX_SCANS_PER_REPO (historyOf store k ++ [callScan c])
    else historyOf store k.
Proof.
  rewrite compareScansOverTime_store. unfold historyOf.
  destruct (decide (Call.repoId c = k)) as [<-|Hne].
  - rewrite lookup_insert_eq. reflexivity.
  - rewrite lookup_insert_ne by exact Hne. reflexivity.
Qed.

Lemma scansFor_cons (k : string) (c : Call) (calls : list Call) :
  scansFor k (c :: calls)
  = if decide (Call.repoId c = k) then callScan c :: scansFor k calls else scansFor k calls.
Proof.
  unfold scansFor. rewrite filter_cons.
  destruct (decide (Call.repoId c = k)); reflexivity.
Qed.

(** The history of a key after a sequence of calls: the scans already there
    followed by the scans saved for the key, cut to the last twenty. *)
Lemma historyOf_runCalls (calls : list Call) (store : ScanStore) (k : string) :
  (length (historyOf store k) <= MAX_SCANS_PER_REPO)%nat ->
  historyOf (runCalls store calls) k
  = sliceLast MAX_SCANS_PER_REPO (historyOf store k ++ scansFor k calls).
Proof.
  revert store. induction calls as [|c calls IH]; intros store Hlen.
  - simpl. unfold scansFor. simpl. rewrite app_nil_r.
    symmetry. apply sliceLast_short, Hlen.
  - change (runCalls store (c :: calls))
      with (runCalls (compareScansOverTime store (Call.clock c) (Call.repoId c)
                        (Call.summary c) (Call.options c)).2 calls).
    rewrite IH; rewrite historyOf_step, ?scansFor_cons;
      destruct (decide (Call.repoId c = k)); try exact Hlen;
      try apply sliceLast_length.
    + rewrite sliceLast_app_sliceLast, <- app_assoc. reflexivity.
    + reflexivity.
Qed.

(** A key is in the store exactly when it has a history. *)
Lemma runCalls_lookup (calls : list Call) (k : string) (history : list SavedScan) :
  runCalls ∅ calls !! k = Some history ->
  history = sliceLast MAX_SCANS_PER_REPO (scansFor k calls).
Proof.
  intros Hlook.
  pose proof (historyOf_runCalls calls ∅ k) as H.
  unfold historyOf in H. rewrite Hlook, lookup_empty in H. simpl in H.
  apply H. lia.
Qed.

Lemma runCalls_keeps (calls : list Call) (store : ScanStore) (k : string) :
  is_Some (store !! k) -> is_Some (runCalls store calls !! k).
Proof.
  revert store. induction calls as [|c calls IH]; intros store Hk; [exact Hk|].
  change (runCalls store (c :: calls))
    with (runCalls (compareScansOverTime store (Call.clock c) (Call.repoId c)
                      (Call.summary c) (Call.options c)).2 calls).
  apply IH. rewrite compareScansOverTime_store, lookup_insert.
  destruct (decide (Call.repoId c = k)); [eexists; reflexivity|exact Hk].
Qed.

Lemma runCalls_stored (calls : list Call) (store : ScanStore) (k : string) :
  scansFor k calls <> [] -> is_Some (runCalls store calls !! k).
Proof.
  revert store. induction calls as [|c calls IH]; intros store Hne.
  - destruct Hne. reflexivity.
  - change (runCalls store (c :: calls))
      with (runCalls (compareScansOverTime store (Call.clock c) (Call.repoId c)
                        (Call.summary c) (Call.options c)).2 calls).
    rewrite scansFor_cons in Hne.
    destruct (decide (Call.repoId c = k)) as [Hk|_]; [|apply IH, Hne].
    apply runCalls_keeps. rewrite compareScansOverTime_store, Hk, lookup_insert_eq.
    eexists. reflexivity.
Qed.

(** C6.  Starting from the empty store, after any sequence of calls the
    history of every key holds at most twenty scans, and they are the last
    twenty saved for that key, oldest first; after twenty-five scans of one
    key exactly twenty remain, the first five having been dropped. *)
Theorem history_capped_fifo (calls : list Call) (k : string) :
  let store := runCalls ∅ calls in
  (forall history,
     store !! k = Some history ->
     (length history <= 20)%nat
     /\ history = sliceLast 20 (scansFor k calls))
  /\ (length (scansFor k calls) = 25%nat ->
      store !! k = Some (drop 5 (scansFor k calls))
      /\ length (drop 5 (scansFor k calls)) = 20%nat).
Proof.
  intros store. subst store. split.
  - intros history Hlook. apply runCalls_lookup in Hlook. subst history.
    split; [apply sliceLast_length|reflexivity].
  - intros Hlen.
    destruct (runCalls_stored calls ∅ k) as [history Hlook].
    { intros Hnil. rewrite Hnil in Hlen. discriminate Hlen. }
    rewrite Hlook. apply runCalls_lookup in Hlook. subst history.
    unfold sliceLast, MAX_SCANS_PER_REPO. rewrite Hlen. simpl.
    split; [reflexivity|]. rewrite length_drop, Hlen. reflexivity.
Qed.

Lemma history_capped_fifo_witness :
  length (scansFor "acme/widgets" twentyFiveCalls) = 25%nat
  /\ runCalls ∅ twentyFiveCalls !! "acme/widgets"
     = Some (drop 5 (scansFor "acme/widgets" twentyFiveCalls))
  /\ length (drop 5 (scansFor "acme/widgets" twentyFiveCalls)) = 20%nat.
Proof.
  split; [reflexivity|].
  apply (proj2 (history_capped_fifo twentyFiveCalls "acme/widgets")). reflexivity.
Defined.

(** The twenty scans kept of twenty-five are those numbered 6 to 25. *)
Example history_of_25_scans_ids :
  (map SavedScan.id <$> runCalls ∅ twentyFiveCalls !! "acme/widgets")
  = Some (map (fun i => "scan-" +:+ showZ (Z.of_nat i) +:+ "-k3j9x2a") (seq 6 20)).
Proof. vm_compute. reflexivity. Qed.

(** ** Target identity *)

Lemma trimSlashes_examples :
  trimSlashes "frontend/" = "frontend"
  /\ trimSlashes "/frontend" = "frontend"
  /\ trimSlashes "/packages/app/" = "packages/app"
  /\ trimSlashes "frontend" = "frontend"
  /\ trimSlashes "/" = "".
Proof. repeat split. Qed.

(** With a remote spec that parses, the key is built from the owner, the
    repository and the trimmed subpath alone. *)
Lemma getRepoId_remote (proc : Process) (spec owner repo : string)
    (ref subpath projectPath : option string) :
  truthy spec = true ->
  parseGitHubRepo spec = Ok (owner, repo) ->
  getRepoId proc (RepoOptions.mk (Some spec) ref subpath projectPath)
  = Ok (match whenTruthy (trimSlashes <$> subpath) with
        | Some sub => (owner +:+ "/" +:+ repo) +:+ ":" +:+ sub
        | None => owner +:+ "/" +:+ repo
        end).
Proof.
  intros Hspec Hparse. unfold getRepoId. simpl. rewrite Hspec, Hparse. simpl.
  destruct (whenTruthy (trimSlashes <$> subpath)); reflexivity.
Qed.

(** Without a remote spec the key is [local:] and the resolved path. *)
Lemma getRepoId_local (proc : Process) (ref subpath projectPath : option string) :
  getRepoId proc (RepoOptions.mk None ref subpath projectPath)
  = Ok ("local:" +:+ match whenTruthy projectPath with
                     | Some path => Process.resolve proc path
                     | None => Process.cwd proc
                     end).
Proof. reflexivity. Qed.

Lemma whenTruthy_Some (o : option string) (s : string) :
  whenTruthy o = Some s -> o = Some s /\ s <> "".
Proof.
  destruct o as [t|]; simpl; [|discriminate].
  destruct (truthy t) eqn:Ht; [|discriminate]. intros E. injection E as ->.
  split; [reflexivity|]. intros ->. discriminate Ht.
Qed.

(** Every key has one of the three forms. *)
Lemma getRepoId_forms (proc : Process) (options : RepoOptions) (key : string) :
  getRepoId proc options = Ok key ->
  (exists spec owner repo,
     RepoOptions.githubRepo options = Some spec
     /\ parseGitHubRepo spec = Ok (owner, repo)
     /\ (key = owner +:+ "/" +:+ repo
         \/ exists sub, sub <> "" /\ key = (owner +:+ "/" +:+ repo) +:+ ":" +:+ sub))
  \/ (exists path, key = "local:" +:+ path).
Proof.
  unfold getRepoId.
  destruct (whenTruthy (RepoOptions.githubRepo options)) as [spec|] eqn:Hspec.
  - apply whenTruthy_Some in Hspec as [Hspec _].
    destruct (parseGitHubRepo spec) as [[owner repo]|message] eqn:Hparse; simpl;
      [|discriminate].
    intros Hkey. left. exists spec, owner, repo.
    split; [exact Hspec|]. split; [exact Hparse|].
    destruct (whenTruthy (trimSlashes <$> RepoOptions.subpath options)) as [sub|] eqn:Hsub;
      simpl in Hkey; injection Hkey as <-.
    + right. exists sub. apply whenTruthy_Some in Hsub as [_ Hne]. split; [exact Hne|reflexivity].
    + left. reflexivity.
  - intros Hkey. injection Hkey as <-. right. eexists. reflexivity.
Qed.

(** The two halves of the replacement, on a subpath they leave alone and on an
    appended separator. *)
Lemma append_length (a b : string) :
  String.length (a +:+ b) = (String.length a + String.length b)%nat.
Proof.
  induction a as [|x a IH]; [reflexivity|].
  rewrite append_cons. simpl. rewrite IH. reflexivity.
Qed.

Lemma prefix_empty (s : string) : String.prefix "" s = true.
Proof. destruct s; reflexivity. Qed.

Lemma dropTrailingSlash_id (s : string) : endsWith "/" s = false -> dropTrailingSlash s = s.
Proof.
  induction s as [|c s IH]; [reflexivity|].
  cbn [endsWith dropTrailingSlash]. rewrite orb_false_iff. intros [-> Hs].
  rewrite (IH Hs). reflexivity.
Qed.

Lemma dropTrailingSlash_app (s : string) : dropTrailingSlash (s +:+ "/") = s.
Proof.
  induction s as [|c s IH]; [reflexivity|].
  rewrite append_cons. cbn [dropTrailingSlash].
  destruct (String.eqb_spec (String c (s +:+ "/")) "/") as [E|_].
  - apply (f_equal String.length) in E. simpl in E. rewrite append_length in E.
    simpl in E. lia.
  - rewrite IH. reflexivity.
Qed.

Lemma dropLeadingSlash_id (s : string) :
  String.prefix "/" s = false -> dropLeadingSlash s = s.
Proof.
  destruct s as [|c s]; [reflexivity|]. cbn [String.prefix dropLeadingSlash].
  destruct (ascii_dec "/" c) as [<-|Hne].
  - rewrite prefix_empty. discriminate.
  - intros _. destruct (Ascii.eqb_spec c "/") as [->|_]; [contradiction|reflexivity].
Qed.

(** What the replacement does to a subpath, by the separators at its ends. *)
Lemma trimSlashes_plain (sub : string) :
  String.prefix "/" sub = false -> endsWith "/" sub = false -> trimSlashes sub = sub.
Proof.
  intros Hlead Htrail. unfold trimSlashes. rewrite (dropLeadingSlash_id sub Hlead).
  apply dropTrailingSlash_id, Htrail.
Qed.

Lemma trimSlashes_leading (sub : string) :
  endsWith "/" sub = false -> trimSlashes ("/" +:+ sub) = sub.
Proof. intros Htrail. apply (dropTrailingSlash_id sub Htrail). Qed.

Lemma trimSlashes_trailing (sub : string) :
  String.prefix "/" sub = false -> trimSlashes (sub +:+ "/") = sub.
Proof.
  intros Hlead. destruct sub as [|c sub]; [reflexivity|].
  unfold trimSlashes. rewrite dropLeadingSlash_id; [apply dropTrailingSlash_app|].
  rewrite append_cons. cbn [String.prefix] in Hlead |- *.
  destruct (ascii_dec "/" c); [|reflexivity].
  rewrite prefix_empty in Hlead. discriminate Hlead.
Qed.

Lemma trimSlashes_both (mid : string) : trimSlashes ("/" +:+ mid +:+ "/") = mid.
Proof. apply (dropTrailingSlash_app mid). Qed.

Lemma whenTruthy_nonempty (s : string) : s <> "" -> whenTruthy (Some s) = Some s.
Proof. destruct s; [contradiction|reflexivity]. Qed.

(** The key of a remote spec that parses, for a subpath that is trimmed to
    a non-empty text. *)
Lemma getRepoId_remote_subpath (proc : Process) (spec owner repo subpath sub : string)
    (ref projectPath : option string) :
  parseGitHubRepo spec = Ok (owner, repo) ->
  trimSlashes subpath = sub ->
  sub <> "" ->
  getRepoId proc (RepoOptions.mk (Some spec) ref (Some subpath) projectPath)
  = Ok ((owner +:+ "/" +:+ repo) +:+ ":" +:+ sub).
Proof.
  intros Hparse Htrim Hne.
  assert (truthy spec = true) as Hspec by (destruct spec; [discriminate Hparse|reflexivity]).
  rewrite (getRepoId_remote proc spec owner repo ref (Some subpath) projectPath Hspec Hparse).
  cbn [fmap option_fmap option_map]. rewrite Htrim, (whenTruthy_nonempty sub Hne).
  reflexivity.
Qed.

(** C9.  The three spellings of the repository resolve to the key
    [acme/widgets].  With the subpath [frontend/] the key is
    [acme/widgets:frontend], and so it is with [/frontend], [/frontend/] and
    [frontend]: one separator is removed at each end of the subpath, and no
    more, so that [//frontend//] gives [acme/widgets:/frontend/].  In general,
    for a spec that parses to an owner and a repository, a subpath without
    separators at its ends gives [owner/repo:subpath], whether it is written
    as it is, after a separator or before one; a subpath between two
    separators gives [owner/repo:] and the text between them, whatever that
    text starts and ends with; a subpath that is empty or consists of one or
    two separators gives [owner/repo], as no subpath does.  The key does not
    depend on the ref.  Without a remote spec, or with an empty one, the key
    is [local:] followed by the resolved local path, or by the working
    directory when the local path is missing or empty.  Every key has one of
    the forms [owner/repo], [owner/repo:subpath] and [local:path]. *)
Theorem getRepoId_identity_key (proc : Process) (ref projectPath : option string) :
  let key := fun (spec : string) (subpath : option string) =>
    getRepoId proc (RepoOptions.mk (Some spec) ref subpath projectPath) in
  (forall spec,
     spec ∈ ["https://github.com/acme/widgets.git"; "github.com/acme/widgets";
             "acme/widgets"] ->
     key spec None = Ok "acme/widgets"
     /\ (forall subpath,
           subpath ∈ ["frontend/"; "/frontend"; "/frontend/"; "frontend"] ->
           key spec (Some subpath) = Ok "acme/widgets:frontend")
     /\ key spec (Some "//frontend//") = Ok "acme/widgets:/frontend/"
     /\ (forall subpath,
           subpath ∈ [""; "/"; "//"] -> key spec (Some subpath) = Ok "acme/widgets"))
  /\ (forall spec owner repo,
        parseGitHubRepo spec = Ok (owner, repo) ->
        (forall sub,
           sub <> "" -> String.prefix "/" sub = false -> endsWith "/" sub = false ->
           forall subpath,
             subpath ∈ [sub; "/" +:+ sub; sub +:+ "/"] ->
             key spec (Some subpath) = Ok ((owner +:+ "/" +:+ repo) +:+ ":" +:+ sub))
        /\ (forall mid,
              mid <> "" ->
              key spec (Some ("/" +:+ mid +:+ "/"))
              = Ok ((owner +:+ "/" +:+ repo) +:+ ":" +:+ mid))
        /\ (forall subpath,
              subpath ∈ [None; Some ""; Some "/"; Some "//"] ->
              key spec subpath = Ok (owner +:+ "/" +:+ repo)))
  /\ (forall githubRepo ref' subpath,
        getRepoId proc (RepoOptions.mk githubRepo ref' subpath projectPath)
        = getRepoId proc (RepoOptions.mk githubRepo ref subpath projectPath))
  /\ (forall githubRepo subpath,
        githubRepo ∈ [None; Some ""] ->
        (forall c path,
           getRepoId proc (RepoOptions.mk githubRepo ref subpath (Some (String c path)))
           = Ok ("local:" +:+ Process.resolve proc (String c path)))
        /\ (forall localPath,
              localPath ∈ [None; Some ""] ->
              getRepoId proc (RepoOptions.mk githubRepo ref subpath localPath)
              = Ok ("local:" +:+ Process.cwd proc)))
  /\ (forall options key,
        getRepoId proc options = Ok key ->
        (exists spec owner repo,
           RepoOptions.githubRepo options = Some spec
           /\ parseGitHubRepo spec = Ok (owner, repo)
           /\ (key = owner +:+ "/" +:+ repo
               \/ exists sub, sub <> "" /\ key = (owner +:+ "/" +:+ repo) +:+ ":" +:+ sub))
        \/ (exists path, key = "local:" +:+ path)).
Proof.
  intros key.
  split; [|split; [|split; [|split]]]; [| | | |apply getRepoId_forms].
  - intros spec Hspec.
    repeat (apply elem_of_cons in Hspec as [->|Hspec];
            [split; [reflexivity|]; split; [|split; [reflexivity|]];
             intros subpath Hsub;
             repeat (apply elem_of_cons in Hsub as [->|Hsub]; [reflexivity|]);
             apply elem_of_nil in Hsub; destruct Hsub|]).
    apply elem_of_nil in Hspec. destruct Hspec.
  - intros spec owner repo Hparse.
    assert (truthy spec = true) as Hspec
      by (destruct spec; [discriminate Hparse|reflexivity]).
    split; [|split].
    + intros sub Hne Hlead Htrail subpath Hsub. subst key. cbv beta.
      apply elem_of_cons in Hsub as [->|Hsub];
        [apply getRepoId_remote_subpath;
         [exact Hparse|apply trimSlashes_plain; assumption|exact Hne]|].
      apply elem_of_cons in Hsub as [->|Hsub];
        [apply getRepoId_remote_subpath;
         [exact Hparse|apply trimSlashes_leading; assumption|exact Hne]|].
      apply elem_of_cons in Hsub as [->|Hsub];
        [apply getRepoId_remote_subpath;
         [exact Hparse|apply trimSlashes_trailing; assumption|exact Hne]|].
      apply elem_of_nil in Hsub. destruct Hsub.
    + intros mid Hne. subst key. cbv beta.
      apply getRepoId_remote_subpath; [exact Hparse|apply trimSlashes_both|exact Hne].
    + intros subpath Hsub. subst key. cbv beta.
      rewrite (getRepoId_remote proc spec owner repo ref subpath projectPath Hspec Hparse).
      repeat (apply elem_of_cons in Hsub as [->|Hsub]; [reflexivity|]).
      apply elem_of_nil in Hsub. destruct Hsub.
  - intros githubRepo ref' subpath. reflexivity.
  - intros githubRepo subpath Hspec.
    repeat (apply elem_of_cons in Hspec as [->|Hspec];
            [split; [reflexivity|];
             intros localPath Hpath;
             repeat (apply elem_of_cons in Hpath as [->|Hpath]; [reflexivity|]);
             apply elem_of_nil in Hpath; destruct Hpath|]).
    apply elem_of_nil in Hspec. destruct Hspec.
Qed.

Lemma getRepoId_identity_key_witness :
  getRepoId sampleProcess
    (RepoOptions.mk (Some "github.com/acme/widgets") (Some "main")
       (Some "/packages/web") None)
  = Ok "acme/widgets:packages/web".
Proof.
  destruct (getRepoId_identity_key sampleProcess (Some "main") None) as (_ & Hgeneral & _).
  destruct (Hgeneral "github.com/acme/widgets" "acme" "widgets" eq_refl) as (Hends & _).
  apply (Hends "packages/web"); [discriminate|reflexivity|reflexivity|].
  right. left.
Defined.

(** With two separators at each end of the subpath, one of each stays in
    the key: the separators are not all trimmed, and this spelling of the
    directory [frontend] has a key, and with it a history, of its own. *)
Lemma getRepoId_doubled_separator_counterexample :
  getRepoId sampleProcess
    (RepoOptions.mk (Some "acme/widgets") None (Some "//frontend//") None)
  = Ok "acme/widgets:/frontend/"
  /\ getRepoId sampleProcess
       (RepoOptions.mk (Some "acme/widgets") None (Some "frontend/") None)
     = Ok "acme/widgets:frontend"
  /\ getRepoId sampleProcess
       (RepoOptions.mk (Some "acme/widgets") None (Some "//frontend//") None)
     <> getRepoId sampleProcess
          (RepoOptions.mk (Some "acme/widgets") None (Some "frontend/") None).
Proof. split; [reflexivity|]. split; [reflexivity|]. discriminate. Qed.

(** * Further properties of the service *)

(** ** What one comparison does to the store *)

Lemma last_sliceLast {A : Type} (n : nat) (l : list A) :
  last (sliceLast (S n) l) = last l.
Proof.
  destruct l as [|x l] using rev_ind; [reflexivity|].
  rewrite sliceLast_snoc_last, last_snoc. reflexivity.
Qed.

Lemma historyOf_compare (store : ScanStore) (clock : Clock) (repoId : string)
    (currentSummary : AuditSummary) (options : ScanOptions) :
  historyOf (compareScansOverTime store clock repoId currentSummary options).2 repoId
  = sliceLast MAX_SCANS_PER_REPO
      (historyOf store repoId ++ [makeScan clock repoId currentSummary options]).
Proof.
  rewrite compareScansOverTime_store. unfold historyOf at 1.
  rewrite lookup_insert_eq. reflexivity.
Qed.

(** A key no call uses keeps what the store held for it. *)
Lemma runCalls_untouched (calls : list Call) (store : ScanStore) (k : string) :
  scansFor k calls = [] -> runCalls store calls !! k = store !! k.
Proof.
  revert store. induction calls as [|c calls IH]; intros store Hnone; [reflexivity|].
  rewrite scansFor_cons in Hnone.
  destruct (decide (Call.repoId c = k)) as [|Hne]; [discriminate Hnone|].
  change (runCalls store (c :: calls))
    with (runCalls (compareScansOverTime store (Call.clock c) (Call.repoId c)
                      (Call.summary c) (Call.options c)).2 calls).
  rewrite (IH _ Hnone), compareScansOverTime_store.
  apply lookup_insert_ne. exact Hne.
Qed.

(** X1.  A call of [compareScansOverTime] changes the history of its own key
    only: every other key keeps its history, the new scan becomes the last
    entry, the history grows by one entry until it holds twenty, and what is
    kept is the tail of the old history followed by the new scan. *)
Theorem compareScansOverTime_touches_one_key (store : ScanStore) (clock : Clock)
    (repoId : string) (currentSummary : AuditSummary) (options : ScanOptions) :
  let store' := (compareScansOverTime store clock repoId currentSummary options).2 in
  let scan := makeScan clock repoId currentSummary options in
  (forall other, other <> repoId -> store' !! other = store !! other)
  /\ last (historyOf store' repoId) = Some scan
  /\ length (historyOf store' repoId)
     = Nat.min (S (length (historyOf store repoId))) 20
  /\ historyOf store' repoId `suffix_of` (historyOf store repoId ++ [scan]).
Proof.
  intros store' scan. subst store' scan.
  rewrite historyOf_compare.
  split; [|split; [|split]].
  - intros other Hne. rewrite compareScansOverTime_store.
    apply lookup_insert_ne. congruence.
  - apply sliceLast_snoc_last.
  - unfold sliceLast, MAX_SCANS_PER_REPO. rewrite length_drop, length_app. simpl. lia.
  - apply suffix_drop.
Qed.

(** X2.  After any sequence of calls from the empty store, the next call on a
    key reports a first scan exactly when no earlier call used that key;
    otherwise its baseline is the scan of the most recent earlier call on the
    key, whatever calls on other keys came in between and however many scans
    of the key were dropped. *)
Theorem compareScansOverTime_after_calls (calls : list Call) (clock : Clock)
    (repoId : string) (currentSummary : AuditSummary) (options : ScanOptions) :
  let result :=
    (compareScansOverTime (runCalls ∅ calls) clock repoId currentSummary options).1 in
  match last (scansFor repoId calls) with
  | None =>
      CompareScansResult.isFirstScan result = Some true
      /\ CompareScansResult.baseline result = CompareScansResult.current result
      /\ CompareScansResult.fixed result = []
      /\ CompareScansResult.introduced result = []
  | Some previous =>
      CompareScansResult.isFirstScan result = None
      /\ CompareScansResult.baseline result = snapshotOf previous
      /\ (CompareScansResult.fixed result, CompareScansResult.introduced result)
         = diffByPair (AuditSummary.vulnerabilities (SavedScan.summary previous))
             (AuditSummary.vulnerabilities currentSummary)
  end.
Proof.
  intros result. subst result.
  assert (last (historyOf (runCalls ∅ calls) repoId) = last (scansFor repoId calls)) as Hlast.
  { rewrite historyOf_runCalls by (unfold historyOf; rewrite lookup_empty; simpl; lia).
    unfold historyOf at 1. rewrite lookup_empty. simpl.
    apply last_sliceLast. }
  destruct (last (scansFor repoId calls)) as [previous|].
  - rewrite (compareScansOverTime_next _ _ _ _ _ previous Hlast). repeat split.
  - rewrite (compareScansOverTime_first _ _ _ _ _ Hlast). repeat split.
Qed.

(** X3.  Every history in the store is non-empty and holds only scans saved
    under its own key. *)
Theorem runCalls_histories_well_formed (calls : list Call) (k : string)
    (history : list SavedScan) :
  runCalls ∅ calls !! k = Some history ->
  history <> [] /\ Forall (fun scan => SavedScan.repoId scan = k) history.
Proof.
  intros Hlook. pose proof (runCalls_lookup calls k history Hlook) as ->.
  split.
  - intros Hnil.
    destruct (scansFor k calls) as [|x l] eqn:Hscans using rev_ind.
    + rewrite (runCalls_untouched calls ∅ k Hscans), lookup_empty in Hlook.
      discriminate Hlook.
    + pose proof (sliceLast_snoc_last 19 l x) as Hl.
      change (sliceLast 20 (l ++ [x])) with (sliceLast MAX_SCANS_PER_REPO (l ++ [x])) in Hl.
      rewrite Hnil in Hl. discriminate Hl.
  - unfold sliceLast. apply Forall_drop. unfold scansFor.
    apply Forall_fmap, Forall_forall. intros c Hc.
    apply list_elem_of_filter in Hc as [Hc _]. exact Hc.
Qed.

Lemma runCalls_histories_well_formed_witness :
  runCalls ∅ twentyFiveCalls !! "acme/widgets"
  = Some (drop 5 (scansFor "acme/widgets" twentyFiveCalls))
  /\ drop 5 (scansFor "acme/widgets" twentyFiveCalls) <> []
  /\ Forall (fun scan => SavedScan.repoId scan = "acme/widgets")
       (drop 5 (scansFor "acme/widgets" twentyFiveCalls)).
Proof.
  assert (runCalls ∅ twentyFiveCalls !! "acme/widgets"
          = Some (drop 5 (scansFor "acme/widgets" twentyFiveCalls))) as H
    by (vm_compute; reflexivity).
  split; [exact H|].
  exact (runCalls_histories_well_formed twentyFiveCalls "acme/widgets" _ H).
Defined.

(** ** When a scan fails *)

(** X4.  The service's own audit-failed error, with the message quoted here,
    is thrown in one situation only: the directory has no [package.json],
    it has a python manifest, and the scan gave no result.  That is the case
    when the only manifest is a [Pipfile], which is never scanned, and
    otherwise when the standard output that is used does not parse, or when
    there is none.  The output used is that of [pip-audit] if the command
    returned or failed with an output, and else that of
    [python -m pip_audit]. *)
Theorem getAuditSummary_audit_failed_iff (w : World) :
  getAuditSummary w
  = Throw "Python project detected but audit failed. Install pip-audit (pip install pip-audit) and ensure Python is on PATH. Try: pip-audit -r requirements.txt or pip-audit . in the project directory."
  <-> World.package_json w = false
      /\ ((World.requirements_txt w = false /\ World.pyproject_toml w = false
           /\ World.Pipfile w = true)
          \/ ((World.requirements_txt w = true \/ World.pyproject_toml w = true)
              /\ match World.pip_audit w with
                 | Returned out | Failed (Some out) => World.parsePip w out = None
                 | Failed None =>
                     match World.python_m_pip_audit w with
                     | Returned out | Failed (Some out) => World.parsePip w out = None
                     | Failed None => True
                     end
                 end)).
Proof.
  unfold getAuditSummary, detectProjectType, runPipAudit, pipRun.
  destruct (World.package_json w), (World.requirements_txt w), (World.pyproject_toml w),
    (World.Pipfile w); cbn [negb andb orb];
    try (split; [discriminate|intros (H & _); discriminate H]);
    try (split; [discriminate|intros (_ & [(_ & _ & H)|([H|H] & _)]); discriminate H]);
    try (split; [intros _; split; [reflexivity|]; left; repeat split|reflexivity]);
    (destruct (World.pip_audit w) as [out|[out|]];
     [| |destruct (World.python_m_pip_audit w) as [out|[out|]]];
     try destruct (World.parsePip w out) eqn:Hparse;
     (split;
      [intros H;
       first [discriminate H
             |split; [reflexivity|]; right; split; [auto|]; first [reflexivity|exact I]]
      |intros (_ & [(H1 & H2 & H3)|(_ & H)]);
       first [discriminate H1|discriminate H2|discriminate H3|discriminate H
             |reflexivity]])).
Qed.

(** X5.  A project whose only manifest is a [Pipfile] is detected as python
    but can never be audited: [getAuditSummary] throws whatever the scanners
    would print. *)
Theorem getAuditSummary_Pipfile_only (npm pip fallback : ExecOutcome)
    (parseNpm : string -> option NpmAuditJson) (parsePip : string -> option PipAuditJson) :
  let w := World.mk false false false true npm pip fallback parseNpm parsePip in
  detectProjectType w = Some python
  /\ runPipAudit w = None
  /\ getAuditSummary w = Throw pipAuditFailed.
Proof. repeat split. Qed.

(** X6.  The module form [python -m pip_audit] is tried only when the first
    command threw without any standard output.  When the first command fails
    with an empty standard output, as a shell does for a command it cannot
    find, the fallback is not run and the scan fails, even if the fallback
    would have succeeded. *)
Theorem runPipAudit_fallback_needs_missing_stdout (w : World) :
  World.package_json w = false ->
  World.requirements_txt w = true \/ World.pyproject_toml w = true ->
  (forall out, World.pip_audit w = Returned out \/ World.pip_audit w = Failed (Some out) ->
     runPipAudit w = World.parsePip w out)
  /\ (World.pip_audit w = Failed (Some "") -> World.parsePip w "" = None ->
      getAuditSummary w = Throw pipAuditFailed)
  /\ (World.pip_audit w = Failed None ->
      runPipAudit w = match pipRun (World.python_m_pip_audit w) with
                      | Some out => World.parsePip w out
                      | None => None
                      end).
Proof.
  intros Hnode Hmanifest.
  assert (negb (World.requirements_txt w) && negb (World.pyproject_toml w) = false) as Hgate
    by (destruct Hmanifest as [-> | ->]; [reflexivity|apply andb_false_r]).
  assert (forall out, World.pip_audit w = Returned out \/ World.pip_audit w = Failed (Some out) ->
            runPipAudit w = World.parsePip w out) as Hfirst.
  { intros out Hout. unfold runPipAudit. rewrite Hgate.
    destruct Hout as [-> | ->]; reflexivity. }
  split; [exact Hfirst|]. split.
  - intros Hfail Hparse.
    apply getAuditSummary_python_failure.
    + unfold detectProjectType. rewrite Hnode.
      destruct Hmanifest as [-> | ->]; [reflexivity|].
      rewrite orb_true_r. reflexivity.
    + rewrite (Hfirst "" (or_intror Hfail)). exact Hparse.
  - intros Hnone. unfold runPipAudit. rewrite Hgate, Hnone. reflexivity.
Qed.

Lemma runPipAudit_fallback_needs_missing_stdout_witness :
  pipRun (World.python_m_pip_audit pipNotOnPathWorld) = Some "[]"
  /\ World.parsePip pipNotOnPathWorld "[]" = Some (PipArray [])
  /\ getAuditSummary pipNotOnPathWorld = Throw pipAuditFailed.
Proof.
  split; [reflexivity|]. split; [reflexivity|].
  apply (runPipAudit_fallback_needs_missing_stdout pipNotOnPathWorld);
    [reflexivity|left; reflexivity|reflexivity|reflexivity].
Defined.

(** ** The verdict and what it is based on *)

Lemma listed_pos (s : SeverityLevel) (l : list Vulnerability) :
  0 < listed s l <-> exists v, v ∈ l /\ Vulnerability.severity v = s.
Proof.
  unfold listed. split.
  - intros Hpos.
    destruct (filter (fun v => Vulnerability.severity v = s) l) as [|v rest] eqn:Hf;
      [simpl in Hpos; lia|].
    assert (v ∈ filter (fun v => Vulnerability.severity v = s) l) as Hin
      by (rewrite Hf; left).
    apply list_elem_of_filter in Hin as [Hs Hin]. exists v. split; assumption.
  - intros (v & Hv & Hs).
    assert (v ∈ filter (fun v => Vulnerability.severity v = s) l) as Hin
      by (apply list_elem_of_filter; split; assumption).
    destruct (filter (fun v => Vulnerability.severity v = s) l);
      [apply elem_of_nil in Hin; destruct Hin|simpl; lia].
Qed.

(** X7.  For a python project the verdict follows the list: a summary of the
    pip adapter is safe to ship exactly when none of its listed findings is
    critical or high. *)
Theorem pip_safeToShip_iff_no_blocking_finding (audit : PipAuditJson) :
  let summary := normalizePipAuditToSummary audit in
  ShipReadiness.safeToShip (shipReadinessOf summary) = true
  <-> forall v, v ∈ AuditSummary.vulnerabilities summary ->
                Vulnerability.severity v <> critical /\ Vulnerability.severity v <> high.
Proof.
  intros summary.
  pose proof (proj1 (normalizePipAuditToSummary_counts_agree audit)) as Hagree.
  pose proof (proj2 (summaryOf_invariant
                       (fold_left pipDepStep (pipDeps audit) (Counts.zero, [])))) as Hflag.
  change (summaryOf _) with summary in Hflag.
  change (normalizePipAuditToSummary audit) with summary in Hagree.
  clearbody summary.
  pose proof (Hagree critical) as Hc. pose proof (Hagree high) as Hh. simpl in Hc, Hh.
  rewrite Hc, Hh, !listed_pos in Hflag.
  unfold shipReadinessOf.
  destruct (AuditSummary.hasCriticalOrHigh summary) eqn:Hb; simpl.
  - split; [intros H; destruct
                (AuditSummary.totalVulnerabilities summary =? 0); discriminate H|].
    intros Hnone. exfalso.
    destruct (proj1 Hflag eq_refl) as [(v & Hv & Hs)|(v & Hv & Hs)];
      destruct (Hnone v Hv); contradiction.
  - split.
    + intros _ v Hv. split; intros Hs.
      * assert (false = true) as F by (apply Hflag; left; exists v; auto). discriminate F.
      * assert (false = true) as F by (apply Hflag; right; exists v; auto). discriminate F.
    + intros _. destruct (AuditSummary.totalVulnerabilities summary =? 0); reflexivity.
Qed.

(** X8.  For a node project the verdict follows the metadata block alone: when
    the report has a vulnerability map, the summary is safe to ship exactly
    when the metadata counts of critical and high are absent or not positive,
    whatever findings the map enumerates. *)
Theorem npm_safeToShip_iff_metadata (report : NpmAuditJson)
    (entries : list (string * NpmAuditVuln)) :
  NpmAuditJson.vulnerabilities report = Some entries ->
  ShipReadiness.safeToShip (shipReadinessOf (normalizeNpmAudit (Some report))) = true
  <-> nullish (metaCount (auditMeta report) critical) 0 <= 0
      /\ nullish (metaCount (auditMeta report) high) 0 <= 0.
Proof.
  intros Hmap.
  pose proof (normalizeNpmAudit_counts report entries critical Hmap) as Hc.
  pose proof (normalizeNpmAudit_counts report entries high Hmap) as Hh.
  change (getCount ?c critical) with (Counts.critical c) in Hc.
  change (getCount ?c high) with (Counts.high c) in Hh.
  destruct (normalizeNpmAudit_invariant (Some report)) as [_ Hflag].
  revert Hc Hh Hflag. generalize (normalizeNpmAudit (Some report)). intros summary Hc Hh Hflag.
  rewrite Hc, Hh in Hflag.
  unfold shipReadinessOf.
  destruct (AuditSummary.hasCriticalOrHigh summary) eqn:Hb; simpl.
  - split; [intros H; discriminate H|].
    intros [H1 H2]. destruct (proj1 Hflag eq_refl) as [H|H]; simpl in H; lia.
  - split.
    + intros _. split.
      * destruct (Z.le_gt_cases (nullish (metaCount (auditMeta report) critical) 0) 0)
          as [H|H]; [exact H|].
        assert (false = true) as F by (apply Hflag; left; simpl; lia). discriminate F.
      * destruct (Z.le_gt_cases (nullish (metaCount (auditMeta report) high) 0) 0)
          as [H|H]; [exact H|].
        assert (false = true) as F by (apply Hflag; right; simpl; lia). discriminate F.
    + intros _. destruct (AuditSummary.totalVulnerabilities summary =? 0); reflexivity.
Qed.

Lemma npm_safeToShip_iff_metadata_witness :
  Vulnerability.severity <$> AuditSummary.vulnerabilities
                               (normalizeNpmAudit (Some reportWithoutMetadata))
  = [critical]
  /\ ShipReadiness.safeToShip
       (shipReadinessOf (normalizeNpmAudit (Some reportWithoutMetadata))) = true.
Proof.
  split; [reflexivity|].
  apply (npm_safeToShip_iff_metadata reportWithoutMetadata _ eq_refl).
  split; simpl; lia.
Defined.

(** ** What the highest-risk selection returns *)

Section HeadOfSort.
Context {A : Type} (score : A -> Z).

Lemma insertBy_behind (x : A) (ahead rest : list A) :
  Forall (fun y => score x < score y) ahead ->
  insertBy (byScoreDesc score) x (ahead ++ rest)
  = ahead ++ insertBy (byScoreDesc score) x rest.
Proof.
  induction 1 as [|y ahead Hy _ IH]; [reflexivity|]. simpl.
  destruct (Z.ltb_spec 0 (byScoreDesc score x y)) as [_|Hge];
    [rewrite IH; reflexivity|unfold byScoreDesc in Hge; lia].
Qed.

Lemma insertBy_front (x : A) (rest : list A) :
  Forall (fun y => score y <= score x) rest ->
  insertBy (byScoreDesc score) x rest = x :: rest.
Proof.
  destruct 1 as [|y rest Hy _]; [reflexivity|]. simpl.
  destruct (Z.ltb_spec 0 (byScoreDesc score x y)) as [Hlt|_];
    [unfold byScoreDesc in Hlt; lia|reflexivity].
Qed.

(** The first entry of a filtered list splits the list. *)
Lemma head_filter_split (P : A -> Prop) `{forall a, Decision (P a)} (l : list A) (x : A) :
  head (filter P l) = Some x ->
  exists before after, l = before ++ x :: after /\ P x /\ Forall (fun a => ~ P a) before.
Proof.
  induction l as [|a l IH]; [discriminate|].
  rewrite filter_cons. destruct (decide (P a)) as [Hp|Hn]; simpl.
  - intros E. injection E as ->. exists [], l. split; [reflexivity|]. split; [exact Hp|constructor].
  - intros E. destruct (IH E) as (before & after & -> & Hx & Hb).
    exists (a :: before), after. split; [reflexivity|]. split; [exact Hx|].
    constructor; assumption.
Qed.

(** The head of the sorted list is the earliest entry of the highest score. *)
Lemma head_sortBy (l : list A) (x : A) :
  head (sortBy (byScoreDesc score) l) = Some x ->
  exists before after,
    l = before ++ x :: after
    /\ Forall (fun a => score a < score x) before
    /\ Forall (fun a => score a <= score x) after.
Proof.
  intros Hhead.
  pose proof (sortBy_perm score l) as Hperm.
  pose proof (sortBy_descending score l) as Hdesc.
  pose proof (sortBy_stable score (score x) l) as Hstable.
  destruct (sortBy (byScoreDesc score) l) as [|y sorted]; [discriminate Hhead|].
  injection Hhead as ->.
  apply StronglySorted_inv in Hdesc as [_ Hmax].
  assert (forall a, a ∈ l -> score a <= score x) as Hall.
  { intros a Ha. rewrite <- Hperm in Ha. apply elem_of_cons in Ha as [->|Ha]; [lia|].
    rewrite Forall_forall in Hmax. apply Hmax, Ha. }
  rewrite withScore_cons in Hstable.
  destruct (decide (score x = score x)) as [_|Hne]; [|congruence].
  assert (head (withScore score (score x) l) = Some x) as Hfirst
    by (rewrite <- Hstable; reflexivity).
  apply head_filter_split in Hfirst as (before & after & -> & _ & Hbefore).
  exists before, after. split; [reflexivity|]. split.
  - rewrite Forall_forall in Hbefore |- *. intros a Ha.
    assert (score a <= score x) by (apply Hall, elem_of_app; left; exact Ha).
    specialize (Hbefore a Ha). lia.
  - rewrite Forall_forall. intros a Ha. apply Hall, elem_of_app. right. right. exact Ha.
Qed.
End HeadOfSort.

(** X9.  The [highest] finding has the highest severity score of the summary
    and is the earliest finding of that score: every finding before it in the
    list scores strictly less, every finding after it at most as much. *)
Theorem highestRisk_is_first_maximum (summary : AuditSummary) (v : Vulnerability) :
  HighestRisk.highest (highestRiskOf summary) = Some v ->
  exists before after,
    AuditSummary.vulnerabilities summary = before ++ v :: after
    /\ Forall (fun u => vulnerabilityScore u < vulnerabilityScore v) before
    /\ Forall (fun u => vulnerabilityScore u <= vulnerabilityScore v) after.
Proof.
  unfold highestRiskOf. simpl.
  change bySeverityDesc with (byScoreDesc vulnerabilityScore).
  apply head_sortBy.
Qed.

Lemma highestRisk_is_first_maximum_witness :
  exists before after,
    AuditSummary.vulnerabilities mixedSummary
    = before ++ Vulnerability.mk "minimist" critical None None None (FixFlag true)
                  None None None :: after
    /\ Forall (fun u => vulnerabilityScore u < 100) before
    /\ Forall (fun u => vulnerabilityScore u <= 100) after.
Proof.
  apply (highestRisk_is_first_maximum mixedSummary). reflexivity.
Defined.

Lemma ofSeverity_score (s : SeverityLevel) (l : list Vulnerability) :
  Forall (fun v => vulnerabilityScore v = SEVERITY_SCORE s) (ofSeverity s l).
Proof.
  apply Forall_forall. intros v Hv.
  apply list_elem_of_filter in Hv as [Hs _]. unfold vulnerabilityScore. rewrite Hs. reflexivity.
Qed.

Lemma ofSeverity_cons (s : SeverityLevel) (v : Vulnerability) (l : list Vulnerability) :
  ofSeverity s (v :: l)
  = if decide (Vulnerability.severity v = s) then v :: ofSeverity s l else ofSeverity s l.
Proof. unfold ofSeverity. rewrite filter_cons. reflexivity. Qed.

Ltac group_scores :=
  repeat (apply Forall_app; split); try apply Forall_nil_2;
  (eapply Forall_impl; [apply ofSeverity_score|]);
  simpl; intros; lia.

(** X10.  [allBySeverity] is the list grouped by severity: the critical
    findings in their input order, then the high ones, then moderate, low and
    info. *)
Theorem highestRisk_groups_by_severity (summary : AuditSummary) :
  HighestRisk.allBySeverity (highestRiskOf summary)
  = groupedBySeverity (AuditSummary.vulnerabilities summary).
Proof.
  unfold highestRiskOf. simpl.
  change bySeverityDesc with (byScoreDesc vulnerabilityScore).
  induction (AuditSummary.vulnerabilities summary) as [|v l IH]; [reflexivity|].
  simpl. rewrite IH. unfold groupedBySeverity. simpl. rewrite !ofSeverity_cons.
  assert (vulnerabilityScore v = SEVERITY_SCORE (Vulnerability.severity v)) as Hv
    by reflexivity.
  destruct (Vulnerability.severity v);
    repeat match goal with
           | |- context [decide (?a = ?b)] =>
               destruct (decide (a = b)) as [?|?]; try discriminate; try congruence
           end; simpl in Hv.
  - apply (insertBy_front vulnerabilityScore). rewrite Hv. group_scores.
  - rewrite (insertBy_behind vulnerabilityScore) by (rewrite Hv; group_scores).
    f_equal. apply (insertBy_front vulnerabilityScore). rewrite Hv. group_scores.
  - rewrite !(insertBy_behind vulnerabilityScore) by (rewrite Hv; group_scores).
    do 2 f_equal. apply (insertBy_front vulnerabilityScore). rewrite Hv. group_scores.
  - rewrite !(insertBy_behind vulnerabilityScore) by (rewrite Hv; group_scores).
    do 3 f_equal. apply (insertBy_front vulnerabilityScore). rewrite Hv. group_scores.
  - rewrite !(insertBy_behind vulnerabilityScore) by (rewrite Hv; group_scores).
    do 4 f_equal. apply (insertBy_front vulnerabilityScore). rewrite Hv. group_scores.
Qed.

(** ** What the adapters list *)

Lemma pipStep_list (dep : PipAuditDep) (vulns : list PipAuditVuln) (acc : Accum) :
  (fold_left (pipStep dep) vulns acc).2 = acc.2 ++ omap (pipEntry dep) vulns.
Proof.
  revert acc. induction vulns as [|v vulns IH]; intros acc; simpl.
  - rewrite app_nil_r. reflexivity.
  - rewrite IH. unfold pipStep, pipEntry.
    destruct (inSeverityOrder _) as [sev|]; simpl; [|reflexivity].
    rewrite <- app_assoc. reflexivity.
Qed.

Lemma pipDepStep_list (deps : list PipAuditDep) (acc : Accum) :
  (fold_left pipDepStep deps acc).2 = acc.2 ++ concat (map pipEntries deps).
Proof.
  revert acc. induction deps as [|dep deps IH]; intros acc; simpl.
  - rewrite app_nil_r. reflexivity.
  - rewrite IH. unfold pipDepStep. rewrite pipStep_list.
    rewrite <- app_assoc. reflexivity.
Qed.

Lemma pipEntry_fields (dep : PipAuditDep) (raw : PipAuditVuln) (v : Vulnerability) :
  pipEntry dep raw = Some v ->
  Vulnerability.name v = PipAuditDep.name dep
  /\ Vulnerability.range v = Some (PipAuditDep.version dep)
  /\ Vulnerability.isDirect v = Some true
  /\ Vulnerability.via v = None
  /\ Vulnerability.id v = PipAuditVuln.id raw
  /\ Vulnerability.fixAvailable v <> FixAbsent
  /\ Vulnerability.fixAvailable v <> FixFlag true.
Proof.
  unfold pipEntry. destruct (inSeverityOrder _) as [sev|]; [|discriminate].
  intros E. injection E as <-. simpl.
  repeat split; destruct (PipAuditVuln.fix_versions raw) as [[|ver vers]|]; discriminate.
Qed.

Lemma omap_length {A B : Type} (f : A -> option B) (l : list A) :
  (length (omap f l) <= length l)%nat.
Proof.
  induction l as [|a l IH]; [reflexivity|].
  change (omap f (a :: l))
    with (match f a with Some b => b :: omap f l | None => omap f l end).
  destruct (f a); simpl; lia.
Qed.

Lemma elem_of_concat {A : Type} (x : A) (ls : list (list A)) :
  x ∈ concat ls -> exists l, x ∈ l /\ l ∈ ls.
Proof.
  induction ls as [|l ls IH]; simpl; intros Hx.
  - apply elem_of_nil in Hx. destruct Hx.
  - apply elem_of_app in Hx as [Hx|Hx].
    + exists l. split; [exact Hx|left].
    + destruct (IH Hx) as (l' & Hl' & Hin). exists l'. split; [exact Hl'|right; exact Hin].
Qed.

(** X11.  The pip adapter lists the findings in the order of the report,
    dependency by dependency, leaving out only those [pipEntry] rejects.
    Every listed finding carries the name and version of its dependency, is
    marked direct, has no [via] chain, and its fix is a version or [false],
    never absent and never [true]. *)
Theorem normalizePipAuditToSummary_lists_in_order (audit : PipAuditJson) :
  let listed := AuditSummary.vulnerabilities (normalizePipAuditToSummary audit) in
  listed = concat (map pipEntries (pipDeps audit))
  /\ (length listed
      <= length (concat (map (fun dep => nullish (PipAuditDep.vulns dep) []) (pipDeps audit))))%nat
  /\ Forall (fun v =>
               (exists dep, dep ∈ pipDeps audit
                            /\ Vulnerability.name v = PipAuditDep.name dep
                            /\ Vulnerability.range v = Some (PipAuditDep.version dep))
               /\ Vulnerability.isDirect v = Some true
               /\ Vulnerability.via v = None
               /\ Vulnerability.fixAvailable v <> FixAbsent
               /\ Vulnerability.fixAvailable v <> FixFlag true) listed.
Proof.
  intros listed.
  assert (listed = concat (map pipEntries (pipDeps audit))) as Hlist.
  { subst listed. unfold normalizePipAuditToSummary. simpl. apply pipDepStep_list. }
  split; [exact Hlist|]. rewrite Hlist. clear. split.
  - induction (pipDeps audit) as [|dep deps IH]; [reflexivity|].
    simpl. rewrite !length_app. unfold pipEntries at 1.
    pose proof (omap_length (pipEntry dep) (nullish (PipAuditDep.vulns dep) [])).
    lia.
  - apply Forall_forall. intros v Hv.
    apply elem_of_concat in Hv as (group & Hv & Hgroup).
    apply list_elem_of_fmap in Hgroup as (dep & -> & Hdep).
    apply list_elem_of_omap in Hv as (raw & _ & Hraw).
    apply pipEntry_fields in Hraw as (Hn & Hr & Hd & Hvia & _ & Hf1 & Hf2).
    split; [exists dep; auto|auto].
Qed.

Lemma npmStep_list (entries : list (string * NpmAuditVuln)) (acc : list Vulnerability) :
  fold_left npmStep entries acc = acc ++ omap npmEntry entries.
Proof.
  revert acc. induction entries as [|entry entries IH]; intros acc; simpl.
  - rewrite app_nil_r. reflexivity.
  - rewrite IH. unfold npmStep, npmEntry.
    destruct (severityOfString _) as [sev|]; simpl; [|reflexivity].
    rewrite <- app_assoc. reflexivity.
Qed.

Lemma npmEntry_fields (entry : string * NpmAuditVuln) (v : Vulnerability) :
  npmEntry entry = Some v ->
  Vulnerability.name v = entry.1
  /\ Vulnerability.range v = NpmAuditVuln.range entry.2
  /\ Vulnerability.isDirect v = NpmAuditVuln.isDirect entry.2
  /\ Vulnerability.id v = None.
Proof.
  unfold npmEntry. destruct (severityOfString _) as [sev|]; [|discriminate].
  intros E. injection E as <-. repeat split.
Qed.

Lemma omap_names_sublist (entries : list (string * NpmAuditVuln)) :
  map Vulnerability.name (omap npmEntry entries) `sublist_of` map fst entries.
Proof.
  induction entries as [|entry entries IH]; [constructor|]. simpl.
  destruct (npmEntry entry) as [v|] eqn:E; simpl.
  - apply npmEntry_fields in E as (-> & _). apply sublist_skip, IH.
  - apply sublist_cons, IH.
Qed.

(** X12.  The npm adapter lists at most one finding per entry of the
    vulnerability map, in the order of the map: the listed package names are
    a subsequence of the keys, so no package is listed twice when the keys
    are distinct, and each listed finding passes on the range and the
    directness flag of its entry and has no advisory id. *)
Theorem normalizeNpmAudit_lists_in_order (report : NpmAuditJson)
    (entries : list (string * NpmAuditVuln)) :
  NpmAuditJson.vulnerabilities report = Some entries ->
  let listed := AuditSummary.vulnerabilities (normalizeNpmAudit (Some report)) in
  listed = omap npmEntry entries
  /\ map Vulnerability.name listed `sublist_of` map fst entries
  /\ (NoDup (map fst entries) -> NoDup (map Vulnerability.name listed))
  /\ Forall (fun v => exists raw, (Vulnerability.name v, raw) ∈ entries
                                  /\ Vulnerability.range v = NpmAuditVuln.range raw
                                  /\ Vulnerability.isDirect v = NpmAuditVuln.isDirect raw
                                  /\ Vulnerability.id v = None) listed.
Proof.
  intros Hmap listed.
  assert (listed = omap npmEntry entries) as Hlist.
  { subst listed. unfold normalizeNpmAudit. rewrite Hmap. simpl. apply npmStep_list. }
  split; [exact Hlist|]. rewrite Hlist. clear. split; [apply omap_names_sublist|]. split.
  - intros Hnodup. eapply sublist_NoDup; [exact Hnodup|apply omap_names_sublist].
  - apply Forall_forall. intros v Hv.
    apply list_elem_of_omap in Hv as ([name raw] & Hentry & Hv).
    apply npmEntry_fields in Hv as (Hn & Hr & Hd & Hi). simpl in Hn, Hr, Hd.
    exists raw. rewrite Hn. auto.
Qed.

Lemma normalizeNpmAudit_lists_in_order_witness :
  map Vulnerability.name (AuditSummary.vulnerabilities (normalizeNpmAudit (Some scenarioReport)))
  = ["lodash"]
  /\ NoDup (map Vulnerability.name
              (AuditSummary.vulnerabilities (normalizeNpmAudit (Some scenarioReport)))).
Proof.
  split; [reflexivity|].
  apply (normalizeNpmAudit_lists_in_order scenarioReport _ eq_refl).
  simpl. apply NoDup_singleton.
Defined.

(** ** How many suggestions, and what they say *)

(** X13.  There is exactly one suggestion for each package that has a
    finding with a fix: the number of suggestions is the number of distinct
    such package names, and never more than the number of findings. *)
Theorem upgradeSuggestions_count (isPip : bool) (audit : AuditSummary) :
  let findings := AuditSummary.vulnerabilities audit in
  let suggestions := upgradeSuggestionsOf isPip audit in
  length suggestions = size (fixablePackages findings)
  /\ (list_to_set (map UpgradeSuggestion.package suggestions) : gset string)
     = fixablePackages findings
  /\ (length suggestions <= length findings)%nat.
Proof.
  intros findings suggestions.
  destruct (upgradeSuggestions_one_per_package_sorted isPip audit)
    as (Hnodup & Horigin & Hcover & _ & _).
  fold findings suggestions in Hnodup, Horigin, Hcover.
  assert ((list_to_set (map UpgradeSuggestion.package suggestions) : gset string)
          = fixablePackages findings) as Hset.
  { apply set_eq. intros n. unfold fixablePackages.
    rewrite !elem_of_list_to_set, !list_elem_of_fmap. split.
    - intros (sug & -> & Hsug).
      destruct (Horigin sug Hsug) as (v & (before & after & Hsplit & Hfix & _) & _ & Hname & _).
      exists v. split; [exact Hname|]. apply list_elem_of_filter. split; [exact Hfix|].
      rewrite Hsplit. apply elem_of_app. right. left.
    - intros (v & -> & Hv). apply list_elem_of_filter in Hv as [Hfix Hv].
      destruct (Hcover v Hv Hfix) as (sug & Hsug & Hname).
      exists sug. split; [symmetry; exact Hname|exact Hsug]. }
  assert (length suggestions = size (fixablePackages findings)) as Hcount.
  { rewrite <- Hset, size_list_to_set by exact Hnodup. rewrite length_map. reflexivity. }
  split; [exact Hcount|]. split; [exact Hset|].
  assert (map UpgradeSuggestion.package suggestions
          ⊆+ map Vulnerability.name
               (filter (fun v => hasFix (Vulnerability.fixAvailable v) = true) findings))
    as Hsub.
  { apply NoDup_submseteq; [exact Hnodup|]. intros n Hn.
    apply (elem_of_list_to_set (C := gset string)).
    fold (fixablePackages findings). rewrite <- Hset.
    apply elem_of_list_to_set, Hn. }
  apply submseteq_length in Hsub. rewrite !length_map in Hsub.
  pose proof (length_filter (fun v => hasFix (Vulnerability.fixAvailable v) = true) findings).
  lia.
Qed.

Lemma truthy_nonempty (s : string) : truthy s = true -> s <> "".
Proof. intros H ->. discriminate H. Qed.

(** X14.  Whenever [getUpgradeSuggestions] returns, every suggestion carries
    a non-empty target and the install command for its own package and
    target, [pip install package==target] for a python project and
    [npm install package@target] otherwise, and leaves the compatibility flag
    unset. *)
Theorem getUpgradeSuggestions_actions (w : World) (suggestions : list UpgradeSuggestion)
    (text : string) :
  getUpgradeSuggestions w = Ok (suggestions, text) ->
  Forall (fun sug =>
            UpgradeSuggestion.action sug
            = installCommand (bool_decide (detectProjectType w = Some python))
                (UpgradeSuggestion.package sug) (UpgradeSuggestion.target sug)
            /\ UpgradeSuggestion.target sug <> ""
            /\ UpgradeSuggestion.isSemverCompatible sug = None) suggestions
  /\ text = upgradeSummaryText suggestions.
Proof.
  unfold getUpgradeSuggestions.
  destruct (getAuditSummary w) as [audit|message]; simpl; [|discriminate].
  intros E. injection E as <- <-. split; [|reflexivity].
  apply Forall_forall. intros sug Hsug.
  destruct (upgradeSuggestions_one_per_package_sorted
              (bool_decide (detectProjectType w = Some python)) audit)
    as (_ & Horigin & _).
  destruct (Horigin sug Hsug) as (v & (before & after & _ & Hfix & _) & -> & _ & _).
  split; [reflexivity|]. split; [|reflexivity].
  unfold suggestionFor. simpl.
  destruct (Vulnerability.fixAvailable v) as [|flag|version]; try discriminate.
  apply truthy_nonempty, Hfix.
Qed.

Lemma getUpgradeSuggestions_actions_witness :
  getUpgradeSuggestions scenarioWorld
  = Ok ([UpgradeSuggestion.mk "lodash" "unknown" "4.17.21" high
           "npm install lodash@4.17.21" None],
        "Apply these 1 upgrade(s) in order of priority (critical/high first):")
  /\ Forall (fun sug =>
               UpgradeSuggestion.action sug
               = installCommand false (UpgradeSuggestion.package sug)
                   (UpgradeSuggestion.target sug)
               /\ UpgradeSuggestion.target sug <> ""
               /\ UpgradeSuggestion.isSemverCompatible sug = None)
       [UpgradeSuggestion.mk "lodash" "unknown" "4.17.21" high
          "npm install lodash@4.17.21" None].
Proof.
  split; [reflexivity|].
  apply (getUpgradeSuggestions_actions scenarioWorld _ _ eq_refl).
Defined.

(** ** Strings that parseGitHubRepo leaves as they are *)

Lemma append_assoc (a b c : string) : (a +:+ b) +:+ c = a +:+ (b +:+ c).
Proof.
  induction a as [|x a IH]; [reflexivity|].
  rewrite !append_cons, IH. reflexivity.
Qed.

Lemma allChars_app (p : ascii -> bool) (a b : string) :
  allChars p (a +:+ b) = allChars p a && allChars p b.
Proof.
  induction a as [|x a IH]; [reflexivity|].
  rewrite append_cons. simpl. rewrite IH. apply andb_assoc.
Qed.

Lemma allChars_impl (p q : ascii -> bool) (s : string) :
  (forall c, p c = true -> q c = true) -> allChars p s = true -> allChars q s = true.
Proof.
  intros Hpq. induction s as [|c s IH]; [reflexivity|]. simpl.
  rewrite !andb_true_iff. intros [Hc Hs]. split; [apply Hpq, Hc|apply IH, Hs].
Qed.

Lemma name_char_facts (c : ascii) :
  is_name_char c = true -> is_space c = false /\ Ascii.eqb c "/" = false.
Proof.
  destruct c as [[] [] [] [] [] [] [] []]; intros H; try discriminate H; split; reflexivity.
Qed.

Lemma word_is_name_char (c : ascii) : is_word c = true -> is_name_char c = true.
Proof. unfold is_name_char. intros ->. reflexivity. Qed.

Lemma wellFormedName_chars (s : string) :
  wellFormedName s = true -> allChars is_name_char s = true /\ s <> "".
Proof.
  destruct s as [|c s]; [discriminate|]. simpl.
  rewrite !andb_true_iff. intros [Hc Hs]. split; [|discriminate].
  split; [apply word_is_name_char, Hc|exact Hs].
Qed.

Lemma trimStart_id (s : string) :
  allChars (fun c => negb (is_space c)) s = true -> trimStart s = s.
Proof.
  destruct s as [|c s]; [reflexivity|]. simpl.
  rewrite andb_true_iff, negb_true_iff. intros [-> _]. reflexivity.
Qed.

Lemma trimEnd_id (s : string) :
  allChars (fun c => negb (is_space c)) s = true -> trimEnd s = s.
Proof.
  induction s as [|c s IH]; [reflexivity|]. simpl.
  rewrite andb_true_iff, negb_true_iff. intros [Hc Hs].
  rewrite (IH Hs), Hc. reflexivity.
Qed.

(** A string without white space is its own [trim]. *)
Lemma trim_id (s : string) :
  allChars (fun c => negb (is_space c)) s = true -> trim s = s.
Proof. intros H. unfold trim. rewrite (trimStart_id s H). apply trimEnd_id, H. Qed.

Lemma name_no_space (s : string) :
  allChars is_name_char s = true -> allChars (fun c => negb (is_space c)) s = true.
Proof.
  apply allChars_impl. intros c Hc. apply name_char_facts in Hc as [-> _]. reflexivity.
Qed.

Lemma name_no_slash (s : string) : allChars is_name_char s = true -> contains "/" s = false.
Proof.
  induction s as [|c s IH]; [reflexivity|]. simpl.
  rewrite andb_true_iff. intros [Hc Hs].
  apply name_char_facts in Hc as [_ ->]. apply IH, Hs.
Qed.

Lemma dropDotGit_id (s : string) : endsWith ".git" s = false -> dropDotGit s = s.
Proof.
  induction s as [|c s IH]; [reflexivity|].
  cbn [endsWith dropDotGit]. rewrite orb_false_iff. intros [-> Hs].
  rewrite (IH Hs). reflexivity.
Qed.

Lemma dropDotGit_app (s : string) : dropDotGit (s +:+ ".git") = s.
Proof.
  induction s as [|c s IH]; [reflexivity|].
  rewrite append_cons. cbn [dropDotGit].
  destruct (String.eqb_spec (String c (s +:+ ".git")) ".git") as [E|_].
  - apply (f_equal String.length) in E. simpl in E. rewrite append_length in E.
    simpl in E. lia.
  - rewrite IH. reflexivity.
Qed.

Lemma contains_app (c : ascii) (a b : string) :
  contains c (a +:+ b) = contains c a || contains c b.
Proof.
  induction a as [|x a IH]; [reflexivity|].
  rewrite append_cons. simpl. rewrite IH. apply orb_assoc.
Qed.

Lemma endsWith_behind_slash (a r : string) :
  endsWith ".git" (a +:+ "/" +:+ r) = endsWith ".git" r.
Proof.
  induction a as [|c a IH].
  - rewrite append_nil, append_cons, append_nil. reflexivity.
  - rewrite append_cons. cbn [endsWith]. rewrite IH.
    destruct (String.eqb_spec (String c (a +:+ "/" +:+ r)) ".git") as [E|_]; [|reflexivity].
    apply (f_equal (contains "/")) in E.
    change (String c (a +:+ "/" +:+ r)) with (String c a +:+ String "/" r) in E.
    rewrite contains_app_cons in E. discriminate E.
Qed.

Lemma split_no_sep (sep : ascii) (s : string) :
  contains sep s = false -> split sep s = [s].
Proof.
  induction s as [|c s IH]; [reflexivity|]. simpl.
  rewrite orb_false_iff. intros [-> Hs]. rewrite (IH Hs). reflexivity.
Qed.

Lemma split_at_sep (sep : ascii) (a b : string) :
  contains sep a = false -> split sep (a +:+ String sep b) = a :: split sep b.
Proof.
  induction a as [|c a IH].
  - intros _. rewrite append_nil. simpl. rewrite Ascii.eqb_refl. reflexivity.
  - cbn [contains]. rewrite orb_false_iff. intros [Hc Ha].
    rewrite append_cons. cbn [split]. rewrite Hc, (IH Ha). reflexivity.
Qed.

Lemma prefix_contains (c : ascii) (sub s : string) :
  String.prefix sub s = true -> contains c sub = true -> contains c s = true.
Proof.
  revert s. induction sub as [|x sub IH]; intros s; [discriminate 2|].
  destruct s as [|y s]; [discriminate|]. simpl.
  destruct (ascii_dec x y) as [->|_]; [|discriminate].
  intros Hp. rewrite !orb_true_iff. intros [Hx|Hsub]; [left; exact Hx|right].
  apply IH; assumption.
Qed.

Lemma includes_contains (c : ascii) (sub s : string) :
  includes sub s = true -> contains c sub = true -> contains c s = true.
Proof.
  intros Hi Hc. induction s as [|y s IH].
  - cbn [includes] in Hi. rewrite orb_false_r in Hi. exact (prefix_contains c sub "" Hi Hc).
  - cbn [includes] in Hi. apply orb_true_iff in Hi as [Hp|Hi].
    + exact (prefix_contains c sub _ Hp Hc).
    + simpl. rewrite (IH Hi). apply orb_true_r.
Qed.

Lemma includes_sep (a b : string) : includes "/" (a +:+ String "/" b) = true.
Proof.
  induction a as [|c a IH].
  - rewrite append_nil. destruct b; reflexivity.
  - rewrite append_cons. simpl. rewrite IH. apply orb_true_r.
Qed.

Lemma append_nil_r (s : string) : s +:+ "" = s.
Proof. induction s as [|c s IH]; [reflexivity|]. rewrite append_cons, IH. reflexivity. Qed.

Lemma trimStart_contains (c : ascii) (s : string) :
  contains c s = false -> contains c (trimStart s) = false.
Proof.
  induction s as [|d s IH]; [reflexivity|]. intros H. cbn [trimStart].
  destruct (is_space d); [|exact H].
  apply IH. cbn [contains] in H. apply orb_false_iff in H as [_ H]. exact H.
Qed.

Lemma trimEnd_contains (c : ascii) (s : string) :
  contains c s = false -> contains c (trimEnd s) = false.
Proof.
  induction s as [|d s IH]; [reflexivity|]. cbn [contains trimEnd].
  rewrite orb_false_iff. intros [Hd Hs].
  destruct (is_space d && String.eqb (trimEnd s) ""); [reflexivity|].
  cbn [contains]. rewrite Hd, (IH Hs). reflexivity.
Qed.

Lemma dropDotGit_contains (c : ascii) (s : string) :
  contains c s = false -> contains c (dropDotGit s) = false.
Proof.
  induction s as [|d s IH]; [reflexivity|]. cbn [contains dropDotGit].
  rewrite orb_false_iff. intros [Hd Hs].
  destruct (String.eqb (String d s) ".git"); [reflexivity|].
  cbn [contains]. rewrite Hd, (IH Hs). reflexivity.
Qed.

(** X15.  A spec without a slash is rejected, with the message that asks for
    [owner/repo] or a full URL. *)
Theorem parseGitHubRepo_without_slash (spec : string) :
  contains "/" spec = false ->
  parseGitHubRepo spec
  = Throw ("Invalid GitHub repo: use " +:+ dquote +:+ "owner/repo" +:+ dquote
           +:+ " or full GitHub URL. Got: " +:+ spec).
Proof.
  intros Hspec.
  assert (contains "/" (dropDotGit (trim spec)) = false) as Hnone
    by (apply dropDotGit_contains, trimEnd_contains, trimStart_contains, Hspec).
  unfold parseGitHubRepo.
  destruct (includes "github.com/" (dropDotGit (trim spec))) eqn:Hurl.
  { rewrite (includes_contains "/" _ _ Hurl eq_refl) in Hnone. discriminate Hnone. }
  destruct (includes "/" (dropDotGit (trim spec))) eqn:Hslash.
  { rewrite (includes_contains "/" _ _ Hslash eq_refl) in Hnone. discriminate Hnone. }
  reflexivity.
Qed.

Lemma parseGitHubRepo_without_slash_witness :
  parseGitHubRepo "widgets.git"
  = Throw ("Invalid GitHub repo: use " +:+ dquote +:+ "owner/repo" +:+ dquote
           +:+ " or full GitHub URL. Got: widgets.git").
Proof. apply (parseGitHubRepo_without_slash "widgets.git"). reflexivity. Defined.

Lemma spanName_chars (s : string) : allChars is_name_char (spanName s).1 = true.
Proof.
  induction s as [|c s IH]; [reflexivity|]. cbn [spanName].
  destruct (is_name_char c) eqn:Hc; [|reflexivity].
  destruct (spanName s) as [run rest]. simpl in IH |- *. rewrite Hc, IH. reflexivity.
Qed.

Lemma matchName_wellFormed (s name rest : string) :
  matchName s = Some (name, rest) -> wellFormedName name = true.
Proof.
  destruct s as [|c s]; [discriminate|]. cbn [matchName].
  destruct (is_word c) eqn:Hc; [|discriminate].
  pose proof (spanName_chars s) as Hrun. destruct (spanName s) as [run rest'].
  intros E. injection E as <- <-. simpl in Hrun |- *. rewrite Hc, Hrun. reflexivity.
Qed.

Lemma matchGitHubHere_wellFormed (s owner repo : string) :
  matchGitHubHere s = Some (owner, repo) ->
  wellFormedName owner = true /\ wellFormedName repo = true.
Proof.
  unfold matchGitHubHere.
  destruct (String.prefix "github.com" s); [|discriminate].
  destruct (dropChars 10 s) as [|sep s1]; [discriminate|].
  destruct (Ascii.eqb sep "/" || Ascii.eqb sep ":"); [|discriminate].
  destruct (matchName s1) as [[o [|slash s2]]|] eqn:Ho; try discriminate.
  destruct (Ascii.eqb slash "/"); [|discriminate].
  destruct (matchName s2) as [[r rest]|] eqn:Hr; [|discriminate].
  intros E. injection E as <- <-.
  split; eapply matchName_wellFormed; eassumption.
Qed.

Lemma matchGitHub_wellFormed (s owner repo : string) :
  matchGitHub s = Some (owner, repo) ->
  wellFormedName owner = true /\ wellFormedName repo = true.
Proof.
  induction s as [|c s IH]; cbn [matchGitHub];
    destruct (matchGitHubHere _) as [[o r]|] eqn:Hhere.
  - intros E. injection E as <- <-. eapply matchGitHubHere_wellFormed, Hhere.
  - discriminate.
  - intros E. injection E as <- <-. eapply matchGitHubHere_wellFormed, Hhere.
  - exact IH.
Qed.

(** X16.  Whatever [parseGitHubRepo] returns, neither the owner nor the
    repository is empty; and when the spec mentions [github.com/], both are
    names of the pattern: a [\w] followed by characters of [[-.\w]], so they
    hold no slash, no colon and no white space. *)
Theorem parseGitHubRepo_names (spec owner repo : string) :
  parseGitHubRepo spec = Ok (owner, repo) ->
  owner <> "" /\ repo <> ""
  /\ (includes "github.com/" (dropDotGit (trim spec)) = true ->
      wellFormedName owner = true /\ wellFormedName repo = true).
Proof.
  unfold parseGitHubRepo.
  destruct (includes "github.com/" (dropDotGit (trim spec))).
  - destruct (matchGitHub _) as [[o r]|] eqn:Hm; [|discriminate].
    intros E. injection E as <- <-.
    destruct (matchGitHub_wellFormed _ _ _ Hm) as [Ho Hr].
    split; [apply (wellFormedName_chars _ Ho)|].
    split; [apply (wellFormedName_chars _ Hr)|]. auto.
  - destruct (includes "/" _); [|discriminate].
    destruct (map trim _) as [|o [|r rest]]; try discriminate.
    destruct (truthy o) eqn:Ho; [|discriminate].
    destruct (truthy r) eqn:Hr; [|discriminate]. simpl.
    intros E. injection E as <- <-.
    split; [apply truthy_nonempty, Ho|].
    split; [apply truthy_nonempty, Hr|discriminate].
Qed.

Lemma parseGitHubRepo_names_witness :
  parseGitHubRepo " https://github.com/acme/widgets/tree/main " = Ok ("acme", "widgets")
  /\ wellFormedName "acme" = true /\ wellFormedName "widgets" = true.
Proof.
  split; [reflexivity|].
  apply (parseGitHubRepo_names " https://github.com/acme/widgets/tree/main "); reflexivity.
Defined.

Lemma spanName_app (a rest : string) :
  allChars is_name_char a = true ->
  match rest with
  | String c _ => is_name_char c = false
  | EmptyString => True
  end ->
  spanName (a +:+ rest) = (a, rest).
Proof.
  intros Ha Hrest. induction a as [|c a IH].
  - rewrite append_nil. destruct rest as [|c rest]; [reflexivity|].
    cbn [spanName]. rewrite Hrest. reflexivity.
  - cbn [allChars] in Ha. apply andb_true_iff in Ha as [Hc Ha].
    rewrite append_cons. cbn [spanName]. rewrite Hc, (IH Ha). reflexivity.
Qed.

Lemma matchName_app (a rest : string) :
  wellFormedName a = true ->
  match rest with
  | String c _ => is_name_char c = false
  | EmptyString => True
  end ->
  matchName (a +:+ rest) = Some (a, rest).
Proof.
  destruct a as [|c a]; [discriminate|]. cbn [wellFormedName].
  rewrite andb_true_iff. intros [Hc Ha] Hrest.
  rewrite append_cons. cbn [matchName]. rewrite Hc, (spanName_app a rest Ha Hrest).
  reflexivity.
Qed.

Lemma matchGitHubHere_names (owner repo : string) :
  wellFormedName owner = true -> wellFormedName repo = true ->
  matchGitHubHere ("github.com/" +:+ owner +:+ "/" +:+ repo) = Some (owner, repo).
Proof.
  intros Ho Hr. rewrite !append_cons, !append_nil.
  unfold matchGitHubHere. cbn [String.prefix dropChars].
  change (owner +:+ "/" +:+ repo) with (owner +:+ String "/" repo).
  simpl. rewrite (matchName_app owner (String "/" repo) Ho eq_refl).
  simpl. rewrite <- (append_nil_r repo) at 1.
  rewrite (matchName_app repo "" Hr I). reflexivity.
Qed.

Lemma matchGitHub_here (s : string) (groups : string * string) :
  matchGitHubHere s = Some groups -> matchGitHub s = Some groups.
Proof. intros H. destruct s; cbn [matchGitHub]; rewrite H; reflexivity. Qed.

Lemma matchGitHub_skip (c : ascii) (s : string) :
  String.prefix "github.com" (String c s) = false ->
  matchGitHub (String c s) = matchGitHub s.
Proof.
  intros H. cbn [matchGitHub]. unfold matchGitHubHere at 1. rewrite H. reflexivity.
Qed.

(** X17.  For every owner and repository that are names of the pattern, the
    full URL with a [.git] suffix parses to that owner and repository, and so
    does the URL without the scheme when the repository name does not itself
    end in [.git]; [getRepoId] then gives the key [owner/repo]. *)
Theorem parseGitHubRepo_url_forms (owner repo : string) :
  wellFormedName owner = true ->
  wellFormedName repo = true ->
  parseGitHubRepo ("https://github.com/" +:+ owner +:+ "/" +:+ repo +:+ ".git")
  = Ok (owner, repo)
  /\ (endsWith ".git" repo = false ->
      parseGitHubRepo ("github.com/" +:+ owner +:+ "/" +:+ repo) = Ok (owner, repo))
  /\ (forall proc ref projectPath,
        getRepoId proc
          (RepoOptions.mk
             (Some ("https://github.com/" +:+ owner +:+ "/" +:+ repo +:+ ".git"))
             ref None projectPath)
        = Ok (owner +:+ "/" +:+ repo)).
Proof.
  intros Ho Hr.
  destruct (wellFormedName_chars owner Ho) as [Hoc _].
  destruct (wellFormedName_chars repo Hr) as [Hrc _].
  assert (allChars (fun c => negb (is_space c)) (owner +:+ "/" +:+ repo) = true) as Hns.
  { rewrite !allChars_app, (name_no_space owner Hoc), (name_no_space repo Hrc). reflexivity. }
  assert (includes "github.com/" ("github.com/" +:+ owner +:+ "/" +:+ repo) = true) as Hinc.
  { rewrite !append_cons, append_nil. cbn [includes String.prefix]. simpl.
    rewrite prefix_empty. reflexivity. }
  assert (parseGitHubRepo
            ("https://github.com/" +:+ owner +:+ "/" +:+ repo +:+ ".git")
          = Ok (owner, repo)) as Hfull.
  { unfold parseGitHubRepo.
    replace ("https://github.com/" +:+ owner +:+ "/" +:+ repo +:+ ".git")
      with (("https://github.com/" +:+ owner +:+ "/" +:+ repo) +:+ ".git")
      by (rewrite !append_assoc; reflexivity).
    rewrite trim_id
      by (rewrite allChars_app; change ("https://github.com/" +:+ owner +:+ "/" +:+ repo)
            with ("https://github.com/" +:+ (owner +:+ "/" +:+ repo));
          rewrite allChars_app, Hns; reflexivity).
    rewrite dropDotGit_app.
    assert (includes "github.com/" ("https://github.com/" +:+ owner +:+ "/" +:+ repo) = true)
      as ->.
    { change ("https://github.com/" +:+ owner +:+ "/" +:+ repo)
        with ("https://" +:+ ("github.com/" +:+ owner +:+ "/" +:+ repo)).
      rewrite !append_cons, append_nil.
      do 8 (cbn [includes]; rewrite orb_true_iff; right).
      rewrite <- !append_cons. exact Hinc. }
    change ("https://github.com/" +:+ owner +:+ "/" +:+ repo)
      with ("https://" +:+ ("github.com/" +:+ owner +:+ "/" +:+ repo)).
    rewrite !append_cons, append_nil.
    rewrite !matchGitHub_skip by reflexivity.
    rewrite <- !append_cons.
    rewrite (matchGitHub_here _ _ (matchGitHubHere_names owner repo Ho Hr)).
    reflexivity. }
  split; [exact Hfull|]. split.
  - intros Hgit. unfold parseGitHubRepo.
    rewrite trim_id
      by (change ("github.com/" +:+ owner +:+ "/" +:+ repo)
            with ("github.com/" +:+ (owner +:+ "/" +:+ repo));
          rewrite allChars_app, Hns; reflexivity).
    rewrite dropDotGit_id.
    + rewrite Hinc, (matchGitHub_here _ _ (matchGitHubHere_names owner repo Ho Hr)).
      reflexivity.
    + change ("github.com/" +:+ owner +:+ "/" +:+ repo)
        with ("github.com" +:+ "/" +:+ (owner +:+ "/" +:+ repo)).
      rewrite endsWith_behind_slash, endsWith_behind_slash. exact Hgit.
  - intros proc ref projectPath. unfold getRepoId.
    cbn [RepoOptions.githubRepo whenTruthy].
    change (truthy ("https://github.com/" +:+ owner +:+ "/" +:+ repo +:+ ".git")) with true.
    cbn iota. rewrite Hfull. reflexivity.
Qed.

Lemma parseGitHubRepo_url_forms_witness :
  parseGitHubRepo "https://github.com/vercel/next.js.git" = Ok ("vercel", "next.js")
  /\ parseGitHubRepo "github.com/vercel/next.js" = Ok ("vercel", "next.js").
Proof.
  destruct (parseGitHubRepo_url_forms "vercel" "next.js" eq_refl eq_refl) as (H1 & H2 & _).
  split; [exact H1|exact (H2 eq_refl)].
Defined.

(** A spec that trims to [owner/repo] takes the shorthand branch. *)
Lemma parseGitHubRepo_trimmed (spec owner repo : string) :
  wellFormedName owner = true ->
  wellFormedName repo = true ->
  includes "github.com/" (owner +:+ "/" +:+ repo) = false ->
  dropDotGit (trim spec) = owner +:+ "/" +:+ repo ->
  parseGitHubRepo spec = Ok (owner, repo).
Proof.
  intros Ho Hr Hurl Htrimmed.
  destruct (wellFormedName_chars owner Ho) as [Hoc Hone].
  destruct (wellFormedName_chars repo Hr) as [Hrc Hrne].
  unfold parseGitHubRepo. rewrite Htrimmed, Hurl.
  change (owner +:+ "/" +:+ repo) with (owner +:+ String "/" repo).
  rewrite includes_sep, split_at_sep by (apply name_no_slash, Hoc).
  rewrite split_no_sep by (apply name_no_slash, Hrc).
  cbn [map]. rewrite !trim_id by (apply name_no_space; assumption).
  destruct owner; [contradiction|]. destruct repo; [contradiction|]. reflexivity.
Qed.

(** X18.  The shorthand round trip: for an owner and a repository that are
    names of the pattern, where the repository does not end in [.git] and the
    spec does not mention [github.com/], [owner/repo] parses to that owner and
    repository, with or without a [.git] suffix, and the identity key of the
    spec is the spec itself. *)
Theorem parseGitHubRepo_shorthand_round_trip (owner repo : string) :
  wellFormedName owner = true ->
  wellFormedName repo = true ->
  endsWith ".git" repo = false ->
  includes "github.com/" (owner +:+ "/" +:+ repo) = false ->
  parseGitHubRepo (owner +:+ "/" +:+ repo) = Ok (owner, repo)
  /\ parseGitHubRepo ((owner +:+ "/" +:+ repo) +:+ ".git") = Ok (owner, repo)
  /\ (forall proc ref projectPath,
        getRepoId proc (RepoOptions.mk (Some (owner +:+ "/" +:+ repo)) ref None projectPath)
        = Ok (owner +:+ "/" +:+ repo)).
Proof.
  intros Ho Hr Hgit Hurl.
  destruct (wellFormedName_chars owner Ho) as [Hoc Hone].
  destruct (wellFormedName_chars repo Hr) as [Hrc Hrne].
  assert (allChars (fun c => negb (is_space c)) (owner +:+ "/" +:+ repo) = true) as Hns.
  { rewrite !allChars_app, (name_no_space owner Hoc), (name_no_space repo Hrc). reflexivity. }
  assert (parseGitHubRepo (owner +:+ "/" +:+ repo) = Ok (owner, repo)) as Hplain.
  { apply parseGitHubRepo_trimmed; try assumption.
    rewrite (trim_id _ Hns). apply dropDotGit_id.
    rewrite endsWith_behind_slash. exact Hgit. }
  split; [exact Hplain|]. split.
  - apply parseGitHubRepo_trimmed; try assumption.
    rewrite trim_id by (rewrite allChars_app, Hns; reflexivity).
    apply dropDotGit_app.
  - intros proc ref projectPath. unfold getRepoId.
    cbn [RepoOptions.githubRepo whenTruthy].
    destruct owner as [|c owner]; [contradiction|].
    rewrite append_cons. cbn [truthy String.eqb negb].
    rewrite <- append_cons, Hplain. reflexivity.
Qed.

Lemma parseGitHubRepo_shorthand_round_trip_witness :
  parseGitHubRepo "expressjs/express" = Ok ("expressjs", "express")
  /\ parseGitHubRepo "expressjs/express.git" = Ok ("expressjs", "express").
Proof.
  destruct (parseGitHubRepo_shorthand_round_trip "expressjs" "express"
              eq_refl eq_refl eq_refl eq_refl) as (H1 & H2 & _).
  split; [exact H1|exact H2].
Defined.

(** ** Separators around a subpath *)

Lemma endsWith_cons_slash (s : string) :
  s <> "" -> endsWith "/" (String "/" s) = endsWith "/" s.
Proof.
  intros Hs. cbn [endsWith].
  destruct (String.eqb_spec (String "/" s) "/") as [E|_]; [|reflexivity].
  injection E as ->. contradiction.
Qed.

Lemma getRepoId_subpath_ext (proc : Process) (githubRepo ref projectPath : option string)
    (sub sub' : string) :
  trimSlashes sub = trimSlashes sub' ->
  getRepoId proc (RepoOptions.mk githubRepo ref (Some sub) projectPath)
  = getRepoId proc (RepoOptions.mk githubRepo ref (Some sub') projectPath).
Proof. intros H. unfold getRepoId. simpl. rewrite H. reflexivity. Qed.

(** X19.  The identity key does not change when one separator is put before
    the subpath, after it, or both, so those spellings share one history;
    a second separator at either end is kept. *)
Theorem getRepoId_subpath_separators (proc : Process)
    (githubRepo ref projectPath : option string) (sub : string) :
  sub <> "" ->
  String.prefix "/" sub = false ->
  endsWith "/" sub = false ->
  let key := fun subpath =>
    getRepoId proc (RepoOptions.mk githubRepo ref (Some subpath) projectPath) in
  key ("/" +:+ sub) = key sub
  /\ key (sub +:+ "/") = key sub
  /\ key (("/" +:+ sub) +:+ "/") = key sub
  /\ trimSlashes sub = sub
  /\ trimSlashes (("//" +:+ sub) +:+ "//") = ("/" +:+ sub) +:+ "/".
Proof.
  intros Hne Hlead Htrail key. subst key.
  assert (trimSlashes sub = sub) as Hid
    by (unfold trimSlashes; rewrite (dropLeadingSlash_id sub Hlead);
        apply dropTrailingSlash_id, Htrail).
  assert (dropLeadingSlash (sub +:+ "/") = sub +:+ "/") as Hlead'.
  { apply dropLeadingSlash_id. destruct sub as [|c sub]; [contradiction|].
    rewrite append_cons. cbn [String.prefix] in Hlead |- *.
    destruct (ascii_dec "/" c); [|reflexivity]. rewrite prefix_empty in Hlead.
    discriminate Hlead. }
  split; [|split; [|split; [|split]]].
  - apply getRepoId_subpath_ext. rewrite Hid. unfold trimSlashes.
    rewrite append_cons, append_nil. cbn [dropLeadingSlash Ascii.eqb]. simpl.
    apply dropTrailingSlash_id, Htrail.
  - apply getRepoId_subpath_ext. rewrite Hid. unfold trimSlashes.
    rewrite Hlead'. apply dropTrailingSlash_app.
  - apply getRepoId_subpath_ext. rewrite Hid. unfold trimSlashes.
    rewrite (append_cons "/" "" sub), append_nil, append_cons.
    cbn [dropLeadingSlash]. simpl. apply dropTrailingSlash_app.
  - exact Hid.
  - unfold trimSlashes.
    assert (("//" +:+ sub) +:+ "//" = String "/" ((("/" +:+ sub) +:+ "/") +:+ "/")) as ->
      by (rewrite (append_assoc ("/" +:+ sub) "/" "/"); reflexivity).
    change (dropLeadingSlash (String "/" ?x)) with x.
    apply dropTrailingSlash_app.
Qed.

Lemma getRepoId_subpath_separators_witness :
  getRepoId (Process.mk "/srv/app" (fun p => p))
    (RepoOptions.mk (Some "acme/widgets") None (Some "/packages/web/") None)
  = Ok "acme/widgets:packages/web"
  /\ trimSlashes "//packages/web//" = "/packages/web/".
Proof.
  destruct (getRepoId_subpath_separators (Process.mk "/srv/app" (fun p => p))
              (Some "acme/widgets") None None "packages/web")
    as (_ & _ & H3 & _ & H5); try reflexivity; [discriminate|].
  split; [etransitivity; [exact H3|reflexivity]|exact H5].
Defined.

(** ** The plain-language summary *)

Example vulnerabilitiesSummary_scenario :
  getVulnerabilitiesSummary scenarioWorld
  = Ok (VulnerabilitiesSummary.mk
          ("Your project has **1** vulnerability findings." +:+ newline
           +:+ "**HIGH** (1):" +:+ newline
           +:+ "- lodash: lodash: Prototype Pollution (transitive). Fix: 4.17.21." +:+ newline
           +:+ "Use " +:+ dquote +:+ "suggest_upgrades" +:+ dquote
           +:+ " to get exact commands to fix them.")
          (Lines.mk [] ["lodash: lodash: Prototype Pollution (transitive). Fix: 4.17.21."]
             [] [] [])
          1).
Proof. vm_compute. reflexivity. Qed.

Lemma getLines_pushLine (b : Lines) (sev s : SeverityLevel) (line : string) :
  getLines (pushLine b sev line) s
  = if decide (s = sev) then getLines b s ++ [line] else getLines b s.
Proof. destruct sev, s; reflexivity. Qed.

Lemma groupLines_from (l : list Vulnerability) (b : Lines) (s : SeverityLevel) :
  getLines
    (fold_left (fun b v => pushLine b (Vulnerability.severity v) (vulnerabilityLine v)) l b) s
  = getLines b s ++ map vulnerabilityLine (ofSeverity s l).
Proof.
  revert b. induction l as [|v l IH]; intros b; simpl.
  - rewrite app_nil_r. reflexivity.
  - rewrite IH, getLines_pushLine, ofSeverity_cons.
    destruct (decide (s = Vulnerability.severity v)) as [->|Hne].
    + destruct (decide (Vulnerability.severity v = Vulnerability.severity v)); [|congruence].
      rewrite <- app_assoc. reflexivity.
    + destruct (decide (Vulnerability.severity v = s)); [congruence|reflexivity].
Qed.

(** X20.  [getVulnerabilitiesSummary] files every finding under its own
    severity and nowhere else: the lines of a severity are the lines of the
    findings of that severity, in the order of the summary, so the five
    groups together hold as many lines as there are findings; [total] is the
    summary's [totalVulnerabilities]. *)
Theorem vulnerabilitiesSummary_groups (audit : AuditSummary) :
  let result := vulnerabilitiesSummaryOf audit in
  let findings := AuditSummary.vulnerabilities audit in
  let group := getLines (VulnerabilitiesSummary.bySeverity result) in
  (forall s, group s = map vulnerabilityLine (ofSeverity s findings))
  /\ (length (group critical) + length (group high) + length (group moderate)
      + length (group low) + length (group info) = length findings)%nat
  /\ VulnerabilitiesSummary.total result = AuditSummary.totalVulnerabilities audit.
Proof.
  intros result findings group.
  assert (forall s, group s = map vulnerabilityLine (ofSeverity s findings)) as Hgroup.
  { intros s. subst group result findings. simpl. unfold groupLines.
    rewrite groupLines_from. destruct s; reflexivity. }
  split; [exact Hgroup|]. split; [|reflexivity].
  rewrite !Hgroup, !length_map.
  pose proof (listed_total findings) as Htotal. unfold listed in Htotal.
  unfold ofSeverity. lia.
Qed.

Lemma renderGroup_length (sev : SeverityLevel) (lines : list string) :
  (length (renderGroup sev lines) <= 12)%nat.
Proof.
  unfold renderGroup. destruct lines as [|line lines]; [simpl; lia|].
  rewrite !length_app, length_map, length_take.
  destruct (10 <? length (line :: lines))%nat; simpl length; lia.
Qed.

Lemma renderGroups_length (b : Lines) :
  (length (concat (map (fun sev => renderGroup sev (getLines b sev)) SEVERITY_ORDER))
   <= 60)%nat.
Proof.
  unfold SEVERITY_ORDER. cbn [map concat]. rewrite !length_app.
  pose proof (renderGroup_length critical (getLines b critical)).
  pose proof (renderGroup_length high (getLines b high)).
  pose proof (renderGroup_length moderate (getLines b moderate)).
  pose proof (renderGroup_length low (getLines b low)).
  pose proof (renderGroup_length info (getLines b info)).
  cbn [length]. lia.
Qed.

Lemma concat_starts (sep first : string) (rest : list string) (c : ascii) (tail : string) :
  first = String c tail ->
  exists tail', String.concat sep (first :: rest) = String c tail'.
Proof.
  intros ->. destruct rest as [|r rest]; simpl.
  - eexists. reflexivity.
  - rewrite append_cons. eexists. reflexivity.
Qed.

(** X21.  For a summary that satisfies the summary invariant, the text is the
    no-vulnerabilities sentence exactly when the list is empty; and however
    many findings there are, a severity is rendered in at most twelve lines
    (a heading, ten findings, one line for the rest), so the text has at most
    sixty-two parts. *)
Theorem vulnerabilitiesSummary_text_bounded (audit : AuditSummary) :
  summaryInvariant audit ->
  let result := vulnerabilitiesSummaryOf audit in
  (AuditSummary.vulnerabilities audit = []
   <-> VulnerabilitiesSummary.summary result = noVulnerabilitiesText)
  /\ (forall sev, (length (renderGroup sev
                             (getLines (VulnerabilitiesSummary.bySeverity result) sev))
                   <= 12)%nat)
  /\ (length (summaryParts audit (VulnerabilitiesSummary.bySeverity result)) <= 62)%nat.
Proof.
  intros [Htotal _] result. subst result. split; [|split].
  - unfold vulnerabilitiesSummaryOf, summaryParts. cbn [VulnerabilitiesSummary.summary].
    rewrite Htotal.
    destruct (AuditSummary.vulnerabilities audit) as [|v l]; [split; reflexivity|].
    split; [discriminate|].
    destruct (Z.eqb_spec (Z.of_nat (length (v :: l))) 0) as [E|_]; [simpl in E; lia|].
    intros Htext. exfalso. revert Htext.
    match goal with
    | |- String.concat _ ((?first :: ?a) ++ ?b) = _ -> _ =>
        change ((first :: a) ++ b) with (first :: (a ++ b));
        destruct (concat_starts newline first (a ++ b) "Y"
                    ("our project has **" +:+ showZ (Z.of_nat (length (v :: l)))
                     +:+ "** vulnerability findings.") eq_refl) as [tail ->]
    end.
    discriminate.
  - intros sev. apply renderGroup_length.
  - unfold summaryParts.
    destruct (AuditSummary.totalVulnerabilities audit =? 0); [simpl; lia|].
    rewrite !length_app.
    pose proof (renderGroups_length
                  (VulnerabilitiesSummary.bySeverity (vulnerabilitiesSummaryOf audit))).
    cbn [length]. lia.
Qed.

Lemma vulnerabilitiesSummary_text_bounded_witness :
  length (AuditSummary.vulnerabilities twelveHighSummary) = 12%nat
  /\ (length (summaryParts twelveHighSummary
                (VulnerabilitiesSummary.bySeverity (vulnerabilitiesSummaryOf twelveHighSummary)))
      <= 62)%nat.
Proof.
  split; [reflexivity|].
  apply (vulnerabilitiesSummary_text_bounded twelveHighSummary).
  apply summaryOf_invariant.
Defined.

(** Twelve findings of one severity are rendered as a heading, ten lines and
    a line for the two that are left. *)
Example vulnerabilitiesSummary_twelve_high :
  length (summaryParts twelveHighSummary
            (VulnerabilitiesSummary.bySeverity (vulnerabilitiesSummaryOf twelveHighSummary)))
  = 14%nat
  /\ last (renderGroup high
             (getLines (VulnerabilitiesSummary.bySeverity
                          (vulnerabilitiesSummaryOf twelveHighSummary)) high))
     = Some "- … and 2 more.".
Proof. vm_compute. split; reflexivity. Qed.

(** ** Fetching a project from GitHub *)

Example prepare_node_repository :
  prepareProjectFromGitHub nodeRemote "acme/widgets" None None
  = (Ok (ResolvedProject.mk "/tmp/risklens-acme-widgets-a1b2c3" true),
     Present [("package.json", "{ }"); ("package-lock.json", "{  }")]).
Proof. reflexivity. Qed.

Lemma responseOk_iff (status : Z) : responseOk status = true <-> 200 <= status <= 299.
Proof. unfold responseOk. rewrite andb_true_iff, !Z.leb_le. reflexivity. Qed.

(** X22.  Of a GitHub answer only a status from 200 to 299 passes.
    [checkRepoAccess] returns exactly for such a response and throws for every
    other one and for a network error; [fetchFromGitHub] returns the body for
    such a response, [null] exactly for a 404, and throws otherwise. *)
Theorem github_status_handling (token : option string) (owner repo filePath : string)
    (outcome : HttpOutcome) :
  (checkRepoAccess token owner repo outcome = Ok tt
   <-> exists status statusText text,
         outcome = HttpResponse status statusText text /\ 200 <= status <= 299)
  /\ (forall raw,
        fetchFromGitHub filePath outcome = Ok (Some raw)
        <-> exists status statusText,
              outcome = HttpResponse status statusText raw /\ 200 <= status <= 299)
  /\ (fetchFromGitHub filePath outcome = Ok None
      <-> exists statusText text, outcome = HttpResponse 404 statusText text).
Proof.
  destruct outcome as [msg|status statusText text].
  - split; [|split].
    + split; [discriminate|]. intros (s & st & t & E & _). discriminate E.
    + intros raw. split; [discriminate|]. intros (s & st & E & _). discriminate E.
    + split; [discriminate|]. intros (st & t & E). discriminate E.
  - unfold checkRepoAccess, fetchFromGitHub.
    destruct (Z.eqb_spec status 404) as [->|H404].
    { split; [|split].
      - split; [discriminate|]. intros (s & st & t & E & Hs). injection E as <- _ _. lia.
      - intros raw. split; [discriminate|].
        intros (s & st & E & Hs). injection E as <- _ _. lia.
      - split; [eauto|reflexivity]. }
    destruct (Z.eqb_spec status 403) as [->|H403].
    { split; [|split].
      - split; [discriminate|]. intros (s & st & t & E & Hs). injection E as <- _ _. lia.
      - intros raw. split; [discriminate|].
        intros (s & st & E & Hs). injection E as <- _ _. lia.
      - split; [discriminate|]. intros (st & t & E). injection E as E _ _. lia. }
    destruct (responseOk status) eqn:Hok; simpl.
    + apply responseOk_iff in Hok. split; [|split].
      * split; [eauto 6|reflexivity].
      * intros raw. split.
        -- intros E. injection E as <-. eauto.
        -- intros (s & st & E & _). injection E as _ _ ->. reflexivity.
      * split; [discriminate|]. intros (st & t & E). injection E as E _ _. lia.
    + assert (~ 200 <= status <= 299) as Hnot
        by (intros Hs; apply responseOk_iff in Hs; congruence).
      split; [|split].
      * split; [discriminate|]. intros (s & st & t & E & Hs). injection E as <- _ _.
        contradiction.
      * intros raw. split; [discriminate|].
        intros (s & st & E & Hs). injection E as <- _ _. contradiction.
      * split; [discriminate|]. intros (st & t & E). injection E as E _ _. lia.
Qed.

Lemma fetched_Some (r : Result (option string)) (content : string) :
  fetched r = Ok (Some content) -> content <> "".
Proof.
  destruct r as [[c|]|m]; simpl; try discriminate.
  destruct (truthy c) eqn:Hc; [|discriminate].
  intros E. injection E as <-. apply truthy_nonempty, Hc.
Qed.

Lemma stageProject_shape (remote : Remote) (owner repo : string)
    (ref subpath : option string) (files : list (string * string)) :
  stageProject remote owner repo ref subpath = (Ok tt, files) -> stagedShape files.
Proof.
  unfold stageProject, stagedShape.
  repeat match goal with
         | |- context [match fetched ?r with _ => _ end] =>
             let H := fresh "H" in
             destruct (fetched r) as [[?|]|?] eqn:H;
             [apply fetched_Some in H| |]
         | |- context [if Remote.lockOnlyInstall remote then _ else _] =>
             destruct (Remote.lockOnlyInstall remote)
         end;
    intros E; try discriminate E; injection E as <-; eauto 10.
Qed.

(** X23.  [prepareProjectFromGitHub] never leaves a temporary directory
    behind when it throws: the directory was not created yet or has been
    removed.  When it returns, the path is the temporary directory, a
    [cleanup] comes with it, and the directory holds a non-empty
    [package.json], alone or with a non-empty lockfile, or a non-empty
    [requirements.txt], or a non-empty [pyproject.toml]; so
    [detectProjectType] finds a project there, a node one exactly when a
    [package.json] was staged. *)
Theorem prepareProjectFromGitHub_stages_or_cleans (remote : Remote) (githubRepo : string)
    (ref subpath : option string) :
  match prepareProjectFromGitHub remote githubRepo ref subpath with
  | (Throw _, dir) => dir = NotCreated \/ dir = Removed
  | (Ok resolved, dir) =>
      ResolvedProject.path resolved = Remote.tmpDir remote
      /\ ResolvedProject.cleanup resolved = true
      /\ exists files,
           dir = Present files
           /\ stagedShape files
           /\ forall w,
                detectProjectType (stagedWorld files w)
                = Some (if hasFile "package.json" files then node else python)
                /\ (hasFile "package.json" files = false ->
                    World.requirements_txt (stagedWorld files w) = true
                    \/ World.pyproject_toml (stagedWorld files w) = true)
  end.
Proof.
  unfold prepareProjectFromGitHub.
  destruct (parseGitHubRepo githubRepo) as [[owner repo]|m]; [|left; reflexivity].
  destruct (checkRepoAccess _ owner repo _) as [[]|m]; [|left; reflexivity].
  destruct (stageProject remote owner repo ref subpath) as [[[]|m] files] eqn:Hstage;
    [|right; reflexivity].
  split; [reflexivity|]. split; [reflexivity|].
  exists files. split; [reflexivity|].
  pose proof (stageProject_shape _ _ _ _ _ _ Hstage) as Hshape.
  split; [exact Hshape|]. intros w.
  destruct Hshape as [(pkg & _ & ->)|[(pkg & lock & _ & _ & ->)
                     |[(req & _ & ->)|(py & _ & ->)]]];
    (split; [reflexivity|]); intros H; try discriminate H; auto.
Qed.

(** X24.  An empty [package.json] counts as no [package.json]: when the
    repository root has one whose content is empty and a non-empty
    [requirements.txt], the project is staged as a python project. *)
Theorem stageProject_empty_manifest (remote : Remote) (owner repo : string)
    (ref : option string) (status status' : Z) (statusText statusText' requirements : string) :
  200 <= status <= 299 ->
  200 <= status' <= 299 ->
  requirements <> "" ->
  Remote.contents remote owner repo "package.json" ref = HttpResponse status statusText "" ->
  Remote.contents remote owner repo "requirements.txt" ref
  = HttpResponse status' statusText' requirements ->
  stageProject remote owner repo ref None = (Ok tt, [("requirements.txt", requirements)]).
Proof.
  intros Hs Hs' Hne Hpkg Hreq. unfold stageProject. cbn [whenTruthy].
  rewrite !append_nil, Hpkg, Hreq.
  assert (forall p s st t, 200 <= s <= 299 ->
            fetchFromGitHub p (HttpResponse s st t) = Ok (Some t)) as Hfetch.
  { intros p s st t Hok. unfold fetchFromGitHub.
    destruct (Z.eqb_spec s 404); [lia|]. destruct (Z.eqb_spec s 403); [lia|].
    apply responseOk_iff in Hok. rewrite Hok. reflexivity. }
  rewrite !Hfetch by assumption. cbn [fetched whenTruthy]. simpl.
  destruct requirements; [contradiction|]. reflexivity.
Qed.

Lemma stageProject_empty_manifest_witness :
  prepareProjectFromGitHub emptyManifestRemote "acme/widgets" None None
  = (Ok (ResolvedProject.mk "/tmp/risklens-acme-widgets-d4e5f6" true),
     Present [("requirements.txt", "flask==0.12")]).
Proof.
  unfold prepareProjectFromGitHub.
  change (parseGitHubRepo "acme/widgets") with (@Ok (string * string) ("acme", "widgets")).
  cbn iota beta.
  change (checkRepoAccess _ _ _ _) with (@Ok unit tt). cbn iota beta.
  rewrite (stageProject_empty_manifest emptyManifestRemote "acme" "widgets" None
             200 200 "OK" "OK" "flask==0.12"); try reflexivity; try lia. discriminate.
Defined.

(** X25.  [withResolvedProject] leaves no temporary directory behind,
    whether resolving fails, [fn] throws or [fn] returns; for a local target
    nothing is created and the result is that of [fn] on the resolved path. *)
Theorem withResolvedProject_releases {T : Type} (proc : Process) (remote : Remote)
    (args : RepoOptions) (fn : string -> Result T) :
  let outcome := withResolvedProject proc remote args fn in
  (outcome.2 = NotCreated \/ outcome.2 = Removed)
  /\ (whenTruthy (RepoOptions.githubRepo args) = None ->
      outcome
      = (fn (match whenTruthy (RepoOptions.projectPath args) with
             | Some projectPath => Process.resolve proc projectPath
             | None => Process.cwd proc
             end), NotCreated)).
Proof.
  intros outcome. subst outcome. unfold withResolvedProject, resolveProjectRoot.
  destruct (whenTruthy (RepoOptions.githubRepo args)) as [githubRepo|].
  - split; [|discriminate].
    pose proof (prepareProjectFromGitHub_stages_or_cleans remote githubRepo
                  (RepoOptions.ref args) (RepoOptions.subpath args)) as Hprep.
    destruct (prepareProjectFromGitHub _ _ _ _) as [[resolved|m] dir]; simpl.
    + destruct Hprep as (_ & -> & _). right. reflexivity.
    + exact Hprep.
  - split; [left; reflexivity|]. intros _. reflexivity.
Qed.

(** X26.  The directory that is scanned and the key its history is filed
    under agree.  For a local target the key is [local:] followed by the very
    path [resolveProjectRoot] returns; for a remote spec that does not parse,
    [getRepoId] and [resolveProjectRoot] throw the same error and nothing is
    created. *)
Theorem resolveProjectRoot_agrees_with_getRepoId (proc : Process) (remote : Remote)
    (options : RepoOptions) :
  (whenTruthy (RepoOptions.githubRepo options) = None ->
   exists path,
     resolveProjectRoot proc remote options = (Ok (ResolvedProject.mk path false), NotCreated)
     /\ getRepoId proc options = Ok ("local:" +:+ path))
  /\ (forall message,
        getRepoId proc options = Throw message ->
        resolveProjectRoot proc remote options = (Throw message, NotCreated)).
Proof.
  unfold resolveProjectRoot, getRepoId. split.
  - intros ->. eexists. split; reflexivity.
  - intros message.
    destruct (whenTruthy (RepoOptions.githubRepo options)) as [githubRepo|]; [|discriminate].
    unfold prepareProjectFromGitHub.
    destruct (parseGitHubRepo githubRepo) as [[owner repo]|m]; simpl.
    + destruct (whenTruthy (trimSlashes <$> RepoOptions.subpath options)); discriminate.
    + intros E. injection E as ->. reflexivity.
Qed.

Lemma resolveProjectRoot_agrees_with_getRepoId_witness :
  exists path,
    resolveProjectRoot (Process.mk "/srv/app" (fun p => "/srv/app/" +:+ p)) nodeRemote
      (RepoOptions.mk None None None (Some "api"))
    = (Ok (ResolvedProject.mk path false), NotCreated)
    /\ getRepoId (Process.mk "/srv/app" (fun p => "/srv/app/" +:+ p))
         (RepoOptions.mk None None None (Some "api"))
       = Ok ("local:" +:+ path).
Proof.
  apply (proj1 (resolveProjectRoot_agrees_with_getRepoId
                  (Process.mk "/srv/app" (fun p => "/srv/app/" +:+ p)) nodeRemote
                  (RepoOptions.mk None None None (Some "api")))).
  reflexivity.
Defined.

(** ** What the diff cannot see *)

(** X27.  The diff sees the set of (package name, severity) pairs only: two
    scans with the same set of pairs report nothing fixed and nothing
    introduced, however many findings carry each pair and whatever their
    advisories are. *)
Theorem diffVulnerabilities_same_pairs (baseline current : list Vulnerability) :
  (forall pair, pair ∈ map pairKey baseline <-> pair ∈ map pairKey current) ->
  diffVulnerabilities baseline current = ([], []).
Proof.
  intros Hsame. rewrite diffVulnerabilities_diffByPair. unfold diffByPair.
  rewrite !filter_none; [reflexivity| |].
  - intros v Hv Hnot. apply Hnot, Hsame, list_elem_of_fmap. exists v. auto.
  - intros v Hv Hnot. apply Hnot, Hsame, list_elem_of_fmap. exists v. auto.
Qed.

Lemma diffVulnerabilities_same_pairs_witness :
  map Vulnerability.id advisoryBefore <> map Vulnerability.id advisoryAfter
  /\ diffVulnerabilities advisoryBefore advisoryAfter = ([], []).
Proof.
  split; [discriminate|].
  apply (diffVulnerabilities_same_pairs advisoryBefore advisoryAfter).
  intros pair. simpl. rewrite !elem_of_cons. split; [intros [->|H]; auto|tauto].
Defined.

(** ** The tools on a failed or unrecognised scan *)

(** X28.  The four tools built on [getAuditSummary] pass its error on
    unchanged; and a directory without any manifest is reported by each of
    them like a project without vulnerabilities, whatever the scanners would
    print: safe to ship, no highest risk, the no-vulnerabilities text and no
    suggestions. *)
Theorem tools_on_failed_or_unrecognised_scan :
  (forall w message,
     getAuditSummary w = Throw message ->
     getShipReadiness w = Throw message
     /\ getHighestRiskDependency w = Throw message
     /\ getVulnerabilitiesSummary w = Throw message
     /\ getUpgradeSuggestions w = Throw message)
  /\ (forall npm pip fallback parseNpm parsePip,
        let w := World.mk false false false false npm pip fallback parseNpm parsePip in
        getShipReadiness w
        = Ok (ShipReadiness.mk true reasonNoVulnerabilities 0 0 0 0
                (Some recommendKeepScanning))
        /\ getHighestRiskDependency w
           = Ok (HighestRisk.mk None "No vulnerabilities found in this codebase." [])
        /\ getVulnerabilitiesSummary w
           = Ok (VulnerabilitiesSummary.mk noVulnerabilitiesText Lines.empty 0)
        /\ getUpgradeSuggestions w = Ok ([], upgradeSummaryText [])).
Proof.
  split.
  - intros w message Hthrow.
    unfold getShipReadiness, getHighestRiskDependency, getVulnerabilitiesSummary,
      getUpgradeSuggestions.
    rewrite Hthrow. repeat split.
  - intros npm pip fallback parseNpm parsePip w. repeat split.
Qed.
